(** * Cross-reference tooling of the documentation build

    Shallow embedding of [scripts/gen_toc.py], [scripts/rewrite_links.py]
    and [scripts/check_links.py].

    Python's [str] is modelled as a list of characters; a character is a
    code point below 256 (the Latin-1 range), on which [str.lower],
    [str.isspace] and the regular-expression classes [\s] and [\w] are
    written out exactly as CPython computes them. *)

From Stdlib Require Import Ascii String DecimalString Bool Arith Lia List.
Import ListNotations.

(** ** Strings and characters *)

Definition str := list ascii.

(** A literal of the source, written as a Rocq string. *)
Definition lit (s : string) : str := list_ascii_of_string s.

Definition code (c : ascii) : nat := nat_of_ascii c.

Definition between (lo hi : nat) (c : ascii) : bool :=
  (lo <=? code c) && (code c <=? hi).

Definition is_char (n : nat) (c : ascii) : bool := code c =? n.

Definition hyphen : ascii := ascii_of_nat 45.
Definition space : ascii := ascii_of_nat 32.
Definition newline : ascii := ascii_of_nat 10.
Definition slash : ascii := ascii_of_nat 47.
Definition dot : ascii := ascii_of_nat 46.
Definition hash : ascii := ascii_of_nat 35.
Definition dquote : ascii := ascii_of_nat 34.

(** [str.isspace] and the class [\s] of a [str] pattern: TAB..CR, FS..US,
    SPACE, NEL and NBSP. *)
Definition is_space (c : ascii) : bool :=
  between 9 13 c || between 28 32 c || is_char 133 c || is_char 160 c.

(** The class [a-z]. *)
Definition is_az (c : ascii) : bool := between 97 122 c.

(** The class [0-9]. *)
Definition is_09 (c : ascii) : bool := between 48 57 c.

Definition is_hyphen (c : ascii) : bool := is_char 45 c.

(** [str.isalnum] below 256: ASCII letters and digits, the Latin-1 letters,
    the superscript digits and the vulgar fractions. *)
Definition is_alnum (c : ascii) : bool :=
  is_09 c || between 65 90 c || is_az c
  || is_char 170 c || is_char 181 c || is_char 186 c
  || between 192 214 c || between 216 246 c || between 248 255 c
  || is_char 178 c || is_char 179 c || is_char 185 c
  || between 188 190 c.

(** The class [\w] of a [str] pattern: alphanumeric or underscore. *)
Definition is_word (c : ascii) : bool := is_alnum c || is_char 95 c.

(** [str.lower] on one character: [A-Z] and the Latin-1 capitals (all of
    192..222 but the multiplication sign) move up by 32. *)
Definition lower_char (c : ascii) : ascii :=
  if between 65 90 c || (between 192 222 c && negb (is_char 215 c))
  then ascii_of_nat (code c + 32)
  else c.

Definition lower (s : str) : str := map lower_char s.

Fixpoint eqb_str (a b : str) : bool :=
  match a, b with
  | [], [] => true
  | x :: a', y :: b' => Ascii.eqb x y && eqb_str a' b'
  | _, _ => false
  end.

(** [x in l] *)
Definition mem_str (x : str) (l : list str) : bool := existsb (eqb_str x) l.

(** [s.startswith(p)] *)
Fixpoint startswith (p s : str) : bool :=
  match p, s with
  | [], _ => true
  | x :: p', y :: s' => Ascii.eqb x y && startswith p' s'
  | _ :: _, [] => false
  end.

(** [s.endswith(p)] *)
Definition endswith (p s : str) : bool := startswith (rev p) (rev s).

Fixpoint dropwhile (f : ascii -> bool) (s : str) : str :=
  match s with
  | [] => []
  | c :: t => if f c then dropwhile f t else s
  end.

(** [s.lstrip()], [s.rstrip()], [s.strip()] without argument. *)
Definition lstrip (s : str) : str := dropwhile is_space s.

Fixpoint rstrip (s : str) : str :=
  match s with
  | [] => []
  | c :: t =>
      match rstrip t with
      | [] => if is_space c then [] else [c]
      | t' => c :: t'
      end
  end.

Definition strip (s : str) : str := rstrip (lstrip s).

(** ** Regular-expression substitutions of [gen_toc.slugify] *)

(** [re.sub(cls, repl, s)] for a pattern that is one character class:
    every character of the class is replaced on its own. *)
Fixpoint re_sub_class (cls : ascii -> bool) (repl : str) (s : str) : str :=
  match s with
  | [] => []
  | c :: t =>
      if cls c then repl ++ re_sub_class cls repl t
      else c :: re_sub_class cls repl t
  end.

(** [re.sub(cls+, repl, s)]: a greedy run of class characters is one match.
    [in_run] tells that the previous character belonged to the match being
    consumed. *)
Fixpoint re_sub_runs (cls : ascii -> bool) (repl : str) (in_run : bool)
    (s : str) : str :=
  match s with
  | [] => []
  | c :: t =>
      if cls c then
        if in_run then re_sub_runs cls repl true t
        else repl ++ re_sub_runs cls repl true t
      else c :: re_sub_runs cls repl false t
  end.

(** [sep.join(parts)] *)
Fixpoint join_str (sep : str) (parts : list str) : str :=
  match parts with
  | [] => []
  | [p] => p
  | p :: rest => p ++ sep ++ join_str sep rest
  end.

(** [s * n] *)
Fixpoint repeat_str (s : str) (n : nat) : str :=
  match n with
  | 0 => []
  | S k => s ++ repeat_str s k
  end.

(** ** Files

    What a path names when the scripts look at it.  [Readable] carries the
    lines that iterating the open file yields; [Unreadable] is a path that
    exists but whose [open] or decoding raises, after the iteration has
    yielded the given lines (none for a directory). *)
Inductive node :=
| Absent
| Readable (lines : list str)
| Unreadable (lines : list str).

Definition filesystem := str -> node.

(** [os.path.exists] / [Path.exists] *)
Definition path_exists (fs : filesystem) (p : str) : bool :=
  match fs p with
  | Absent => false
  | _ => true
  end.

Module GenToc.

(** The negated class [[^a-z0-9\s-]]. *)
Definition not_slug_input (c : ascii) : bool :=
  negb (is_az c || is_09 c || is_space c || is_hyphen c).

(** The class [[\s-]]. *)
Definition space_or_hyphen (c : ascii) : bool := is_space c || is_hyphen c.

Definition slugify (text : str) : str :=
  let text := lower (strip text) in
  let text := re_sub_class not_slug_input [] text in
  let text := re_sub_runs space_or_hyphen [hyphen] false text in
  text.

(** *** [HEADING_PATTERN = ^(#{1,6})\s+(.+?)\s*$]

    The matcher follows the backtracking search of [re]: a greedy
    quantifier tries the longest choice first, the lazy one the shortest.
    ['.'] excludes the newline, and [\s*$] succeeds exactly when what is
    left is white space (the [$] is at the end, or before a final newline,
    itself white space). *)

(** [(.+?)\s*$] *)
Fixpoint lazy_title (s : str) : option str :=
  match s with
  | [] => None
  | c :: t =>
      if is_char 10 c then None
      else if forallb is_space t then Some [c]
      else option_map (cons c) (lazy_title t)
  end.

(** [\s+(.+?)\s*$] *)
Fixpoint spaces_title (s : str) : option str :=
  match s with
  | [] => None
  | c :: t =>
      if is_space c then
        match spaces_title t with
        | Some title => Some title
        | None => lazy_title t
        end
      else None
  end.

(** [#{0,budget}\s+(.+?)\s*$], with the number of hashes taken. *)
Fixpoint hashes_title (budget : nat) (s : str) : option (nat * str) :=
  let stop := option_map (pair 0) (spaces_title s) in
  match budget, s with
  | S b, c :: t =>
      if is_char 35 c then
        match hashes_title b t with
        | Some (n, title) => Some (S n, title)
        | None => stop
        end
      else stop
  | _, _ => stop
  end.

(** [HEADING_PATTERN.match(line)], as [(len(hashes), title)]. *)
Definition HEADING_PATTERN_match (line : str) : option (nat * str) :=
  match line with
  | c :: t =>
      if is_char 35 c then
        match hashes_title 5 t with
        | Some (n, title) => Some (S n, title)
        | None => None
        end
      else None
  | [] => None
  end.

Definition heading : Type := nat * str.

(** [parse_headings], on the lines that iterating the file yields. *)
Definition parse_headings (lines : list str) : list heading :=
  fold_left
    (fun headings line =>
       match HEADING_PATTERN_match line with
       | None => headings
       | Some (level, title) => headings ++ [(level, strip title)]
       end)
    lines [].

(** The f-string [f"{indent}- [{title}](#{anchor})"]. *)
Definition toc_line (level : nat) (title : str) : str :=
  let anchor := slugify title in
  let indent := repeat_str (lit "  ") (level - 1) in
  indent ++ lit "- [" ++ title ++ lit "](#" ++ anchor ++ lit ")".

(** The body of the inner loop of [main]. *)
Definition toc_step (toc_lines : list str) (h : heading) : list str :=
  let (level, title) := h in
  if 3 <? level then toc_lines
  else toc_lines ++ [toc_line level title].

Definition page_break : str :=
  newline :: lit "<div class=" ++ dquote :: lit "page-break" ++ dquote
  :: lit "></div>".

(** What a run of [main] leaves behind: an uncaught exception, or an exit
    status and the text written to [OUTFILE], if any. *)
Inductive outcome :=
| Raised
| Exit (status : nat) (written : option str).

(** The body of the outer loop of [main]; [None] once reading a file has
    raised. *)
Definition main_file (fs : filesystem) (acc : option (list str))
    (file : str) : option (list str) :=
  match acc with
  | None => None
  | Some toc_lines =>
      match fs file with
      | Absent => Some toc_lines
      | Readable lines =>
          Some (fold_left toc_step (parse_headings lines) toc_lines)
      | Unreadable _ => None
      end
  end.

Definition toc_header : list str := [lit "# Table of Contents"; []].

Definition main (fs : filesystem) (files : list str) : outcome :=
  match files with
  | [] => Exit 1 None
  | _ =>
      match fold_left (main_file fs) files (Some toc_header) with
      | None => Raised
      | Some toc_lines =>
          let toc_lines := toc_lines ++ [page_break] in
          Exit 0 (Some (join_str [newline] toc_lines ++ [newline]))
      end
  end.

(** The anchors that the loop of [main] computes for the headings of one
    document, in the order it computes them. *)
Definition assigned_slugs (headings : list heading) : list str :=
  map (fun h => slugify (snd h))
      (filter (fun h => negb (3 <? fst h)) headings).

End GenToc.

(** ** [posixpath] *)

Definition is_slash (c : ascii) : bool := is_char 47 c.
Definition is_dot (c : ascii) : bool := is_char 46 c.

Fixpoint takewhile (f : ascii -> bool) (s : str) : str :=
  match s with
  | [] => []
  | c :: t => if f c then c :: takewhile f t else []
  end.

Definition not_in (f : ascii -> bool) (c : ascii) : bool := negb (f c).

(** [p[:p.rfind(ch) + 1]] and [p[p.rfind(ch) + 1:]] *)
Definition upto_last (f : ascii -> bool) (p : str) : str :=
  rev (dropwhile (not_in f) (rev p)).
Definition after_last (f : ascii -> bool) (p : str) : str :=
  rev (takewhile (not_in f) (rev p)).

(** [s.rstrip('/')] and [s.lstrip('/')] *)
Definition rstrip_slash (s : str) : str := rev (dropwhile is_slash (rev s)).
Definition lstrip_slash (s : str) : str := dropwhile is_slash s.

Definition os_path_basename (p : str) : str := after_last is_slash p.

Definition os_path_dirname (p : str) : str :=
  let head := upto_last is_slash p in
  match head with
  | [] => head
  | _ => if forallb is_slash head then head else rstrip_slash head
  end.

(** [os.path.join(a, b)] *)
Definition os_path_join (a b : str) : str :=
  if startswith [slash] b then b
  else
    match a with
    | [] => b
    | _ => if endswith [slash] a then a ++ b else a ++ slash :: b
    end.

(** [os.path.splitext]: the extension starts at the last dot of the last
    component, unless only dots precede it there. *)
Definition os_path_splitext (p : str) : str * str :=
  let name := after_last is_slash p in
  if existsb is_dot name then
    let stem := removelast (upto_last is_dot name) in
    if existsb (not_in is_dot) stem then
      (upto_last is_slash p ++ stem, dot :: after_last is_dot name)
    else (p, [])
  else (p, []).

(** [s.split(sep)] for a one-character separator: never empty. *)
Fixpoint split_char (f : ascii -> bool) (s : str) : list str :=
  match s with
  | [] => [[]]
  | c :: t =>
      match split_char f t with
      | [] => [[c]]
      | part :: parts =>
          if f c then [] :: part :: parts else (c :: part) :: parts
      end
  end.

(** The loop of [posixpath.normpath] over the components; [new_comps] is
    kept reversed, its last element first. *)
Definition normpath_step (initial_slashes : nat) (new_comps : list str)
    (comp : str) : list str :=
  if eqb_str comp [] || eqb_str comp [dot] then new_comps
  else if negb (eqb_str comp [dot; dot])
          || ((initial_slashes =? 0)
              && match new_comps with [] => true | _ => false end)
          || match new_comps with
             | last :: _ => eqb_str last [dot; dot]
             | [] => false
             end
  then comp :: new_comps
  else tl new_comps.

Definition os_path_normpath (path : str) : str :=
  match path with
  | [] => [dot]
  | _ =>
      let initial_slashes :=
        if startswith [slash] path then
          if startswith [slash; slash] path
             && negb (startswith [slash; slash; slash] path)
          then 2 else 1
        else 0 in
      let comps := split_char is_slash path in
      let new_comps := rev (fold_left (normpath_step initial_slashes) comps [])
      in
      let path :=
        repeat slash initial_slashes ++ join_str [slash] new_comps in
      match path with
      | [] => [dot]
      | _ => path
      end
  end.

Module RewriteLinks.

(** A match of [link_pattern = \[([^\]]+)\]\(([^)]+)\)]: groups 1 and 2. *)
Record re_match := { text : str; url : str }.

(** [match.group(0)]: the matched text itself. *)
Definition group0 (m : re_match) : str :=
  lit "[" ++ text m ++ lit "](" ++ url m ++ lit ")".

Definition is_rbracket (c : ascii) : bool := is_char 93 c.
Definition is_rparen (c : ascii) : bool := is_char 41 c.

(** [link_pattern] matched at the head of [s]: with negated classes the
    greedy groups stop at the first [']'] and the first [')']. *)
Definition link_match (s : str) : option re_match :=
  match s with
  | c :: t =>
      if is_char 91 c then
        let text := takewhile (not_in is_rbracket) t in
        match text, dropwhile (not_in is_rbracket) t with
        | _ :: _, _ :: lp :: r =>
            if is_char 40 lp then
              let url := takewhile (not_in is_rparen) r in
              match url, dropwhile (not_in is_rparen) r with
              | _ :: _, _ :: _ => Some {| text := text; url := url |}
              | _, _ => None
              end
            else None
        | _, _ => None
        end
      else None
  | [] => None
  end.

(** [link_pattern.sub(repl, content)]: the matches are searched from left
    to right and do not overlap; [skip] counts the characters of the last
    match still to be passed over. *)
Fixpoint link_pattern_sub (repl : re_match -> str) (skip : nat)
    (content : str) : str :=
  match content with
  | [] => []
  | c :: t =>
      match skip with
      | S k => link_pattern_sub repl k t
      | 0 =>
          match link_match content with
          | Some m =>
              repl m ++ link_pattern_sub repl (length (group0 m) - 1) t
          | None => c :: link_pattern_sub repl 0 t
          end
      end
  end.

(** The class [[^\w-]]. *)
Definition not_word_or_hyphen (c : ascii) : bool :=
  negb (is_word c || is_hyphen c).

(** The anchor computed from the text of the first H1 line. *)
Definition header_anchor (header : str) : str :=
  let anchor := re_sub_class (is_char 32) [hyphen] (lower header) in
  re_sub_class not_word_or_hyphen [] anchor.

(** The loop over the lines of the target file: the anchor of the first
    line that starts with ["# "], if there is one. *)
Fixpoint first_h1_anchor (lines : list str) : option str :=
  match lines with
  | [] => None
  | line :: rest =>
      if startswith (lit "# ") line then
        let header := strip (skipn 2 line) in
        Some (header_anchor header)
      else first_h1_anchor rest
  end.

(** [re.sub(r'^\d+[-_]', '', anchor)] *)
Definition strip_number_prefix (anchor : str) : str :=
  match takewhile is_09 anchor, dropwhile is_09 anchor with
  | _ :: _, c :: rest =>
      if is_hyphen c || is_char 95 c then rest else anchor
  | _, _ => anchor
  end.

Definition anchor_link (text anchor : str) : str :=
  lit "[" ++ text ++ lit "](#" ++ anchor ++ lit ")".

Definition replace_link (fs : filesystem) (filename : str) (m : re_match)
    : str :=
  let text := text m in
  let url := url m in
  if startswith (lit "http") url || startswith (lit "#") url
     || startswith (lit "mailto:") url
  then group0 m
  else if endswith (lit ".md") url then
    let basename := os_path_basename url in
    let basename_no_ext := fst (os_path_splitext basename) in
    let current_dir := os_path_dirname filename in
    let target_path := os_path_join current_dir url in
    let found :=
      match fs target_path with
      | Absent => None
      | Readable lines | Unreadable lines => first_h1_anchor lines
      end in
    match found with
    | Some anchor => anchor_link text anchor
    | None =>
        let anchor := basename_no_ext in
        let anchor := strip_number_prefix anchor in
        anchor_link text anchor
    end
  else group0 m.

Definition rewrite_links (fs : filesystem) (content filename : str) : str :=
  link_pattern_sub (replace_link fs filename) 0 content.

End RewriteLinks.

Module CheckLinks.

(** *** [link_pattern = \[.*?\]\((.*?)\)] *)

(** [(.*?)\)]: the group and what follows the match. *)
Fixpoint lazy_target (s : str) : option (str * str) :=
  match s with
  | [] => None
  | c :: t =>
      if is_char 41 c then Some ([], t)
      else if is_char 10 c then None
      else
        match lazy_target t with
        | Some (link, rest) => Some (c :: link, rest)
        | None => None
        end
  end.

(** [.*?\]\((.*?)\)]: the lazy star first tries to stop here. *)
Fixpoint lazy_text (s : str) : option (str * str) :=
  match s with
  | [] => None
  | c :: t =>
      let here :=
        match t with
        | lp :: r =>
            if is_char 93 c && is_char 40 lp then lazy_target r else None
        | [] => None
        end in
      match here with
      | Some found => Some found
      | None => if is_char 10 c then None else lazy_text t
      end
  end.

Definition link_match (s : str) : option (str * str) :=
  match s with
  | c :: t => if is_char 91 c then lazy_text t else None
  | [] => None
  end.

(** [link_pattern.findall(content)]: group 1 of every match, from left to
    right, without overlap. *)
Fixpoint findall (skip : nat) (content : str) : list str :=
  match content with
  | [] => []
  | _ :: t =>
      match skip with
      | S k => findall k t
      | 0 =>
          match link_match content with
          | Some (link, rest) => link :: findall (length t - length rest) t
          | None => findall 0 t
          end
      end
  end.

(** What [open(filepath).read()] gives for a file that [os.walk] lists. *)
Inductive read_result :=
| Decoded (content : str)
| DecodeError.

(** One step of [os.walk], after the ignored directories are pruned: the
    directory and its file names with what reading each one gives. *)
Definition walk_entry : Type := str * list (str * read_result).

Definition ignored_files : list str :=
  [lit "MCP-IEEE-42010-AD.md"; lit "CHANGELOG.md"; lit "CONTRIBUTING.md"].

Definition is_hash (c : ascii) : bool := is_char 35 c.

(** The path tested for a link found in a file of [dirpath]. *)
Definition target_path (start_path dirpath link : str) : str :=
  let link_path := takewhile (not_in is_hash) link in
  os_path_normpath
    (if startswith [slash] link_path
     then os_path_join start_path (lstrip_slash link_path)
     else os_path_join dirpath link_path).

(** The body of the loop over the links of one file. *)
Definition check_link (exists_ : str -> bool) (start_path dirpath filepath : str)
    (broken_links : list (str * str)) (link : str) : list (str * str) :=
  if startswith (lit "http") link || startswith (lit "https") link
     || startswith (lit "#") link || startswith (lit "mailto:") link
  then broken_links
  else
    let link_path := takewhile (not_in is_hash) link in
    match link_path with
    | [] => broken_links
    | _ =>
        if exists_ (target_path start_path dirpath link) then broken_links
        else broken_links ++ [(filepath, link)]
    end.

(** The body of the loop over the files of one directory. *)
Definition check_file (exists_ : str -> bool) (start_path dirpath : str)
    (broken_links : list (str * str)) (file : str * read_result)
    : list (str * str) :=
  let (filename, read) := file in
  if negb (endswith (lit ".md") filename) then broken_links
  else if mem_str filename ignored_files then broken_links
  else
    let filepath := os_path_join dirpath filename in
    match read with
    | DecodeError => broken_links
    | Decoded content =>
        fold_left (check_link exists_ start_path dirpath filepath)
                  (findall 0 content) broken_links
    end.

Definition check_links (exists_ : str -> bool) (walk : list walk_entry)
    (start_path : str) : list (str * str) :=
  fold_left
    (fun broken_links (entry : walk_entry) =>
       let (dirpath, filenames) := entry in
       fold_left (check_file exists_ start_path dirpath) filenames
                 broken_links)
    walk [].

End CheckLinks.

(** ** The specification's wording *)

Module Spec.

(** *** The slug algorithm, steps (1) to (4)

    "Lowercase letter" and "digit" are the letters a to z and the digits 0
    to 9; "space" in step (3) is any white space, which is what step (4)
    then finds in the text. *)

(** (1) trim *)
Definition trim (s : str) : str :=
  rev (dropwhile is_space (rev (dropwhile is_space s))).

(** (2) lowercase *)
Definition lowercase (s : str) : str := map lower_char s.

(** (3) remove every character that is not a lowercase letter, digit,
    space, or hyphen *)
Definition kept (c : ascii) : bool :=
  is_az c || is_09 c || is_space c || is_hyphen c.

Definition remove_others (s : str) : str := filter kept s.

(** (4) collapse every run of whitespace-or-hyphen into a single hyphen: a
    character of a run that is followed by another one disappears, the
    last one of the run becomes the hyphen. *)
Definition separator (c : ascii) : bool := is_space c || is_hyphen c.

Fixpoint collapse (s : str) : str :=
  match s with
  | [] => []
  | c :: t =>
      if separator c then
        match t with
        | d :: _ => if separator d then collapse t else hyphen :: collapse t
        | [] => [hyphen]
        end
      else c :: collapse t
  end.

Definition slug (title : str) : str :=
  collapse (remove_others (lowercase (trim title))).

(** *** The disambiguation rule *)

Definition decimal (n : nat) : str :=
  lit (NilEmpty.string_of_uint (Nat.to_uint n)).

(** The first of [slug-n], [slug-(n+1)], ... that is not assigned yet;
    among [length assigned + 1] candidates one is free. *)
Fixpoint first_unused (fuel n : nat) (slug : str) (assigned : list str)
    : str :=
  let candidate := slug ++ hyphen :: decimal n in
  match fuel with
  | 0 => candidate
  | S fuel' =>
      if mem_str candidate assigned
      then first_unused fuel' (S n) slug assigned
      else candidate
  end.

Definition disambiguate (assigned : list str) (slug : str) : str :=
  if mem_str slug assigned
  then first_unused (length assigned) 1 slug assigned
  else slug.

(** The slugs of the headings of one document, resolved in order. *)
Fixpoint resolve_from (assigned : list str) (titles : list str)
    : list str :=
  match titles with
  | [] => []
  | title :: rest =>
      let s := disambiguate assigned (slug title) in
      s :: resolve_from (s :: assigned) rest
  end.

Definition resolve (titles : list str) : list str := resolve_from [] titles.

End Spec.

(** ** Views used in the statements *)

(** The characters of an anchor: a to z, 0 to 9 and the hyphen. *)
Definition slug_char (c : ascii) : bool := is_az c || is_09 c || is_hyphen c.

(** Only anchor characters, and no hyphen next to another one;
    [after_hyphen] tells that a hyphen precedes [s]. *)
Fixpoint slug_form (after_hyphen : bool) (s : str) : bool :=
  match s with
  | [] => true
  | c :: t =>
      if is_hyphen c then negb after_hyphen && slug_form true t
      else (is_az c || is_09 c) && slug_form false t
  end.

Fixpoint no_double_hyphen (s : str) : bool :=
  match s with
  | [] => true
  | c :: t =>
      match t with
      | d :: _ => negb (is_hyphen c && is_hyphen d) && no_double_hyphen t
      | [] => true
      end
  end.

(** A printable ASCII character other than the underscore. *)
Definition plain_char (c : ascii) : bool :=
  between 32 126 c && negb (is_char 95 c).

(** An ASCII letter or digit. *)
Definition ascii_alnum (c : ascii) : bool :=
  between 65 90 c || is_az c || is_09 c.

(** The lines of the table of contents that one heading accounts for. *)
Definition heading_lines (h : GenToc.heading) : list str :=
  let (level, title) := h in
  if level <=? 3 then
    [repeat space (2 * (level - 1)) ++ lit "- [" ++ title ++ lit "](#"
       ++ GenToc.slugify title ++ lit ")"]
  else [].

(** The headings of one line of a document. *)
Definition line_headings (line : str) : list GenToc.heading :=
  match GenToc.HEADING_PATTERN_match line with
  | Some (level, title) => [(level, strip title)]
  | None => []
  end.

Definition node_lines (n : node) : list str :=
  match n with
  | Absent => []
  | Readable lines | Unreadable lines => lines
  end.

Definition unreadable (n : node) : bool :=
  match n with
  | Unreadable _ => true
  | _ => false
  end.

(** A line of a file, with its end of line. *)
Definition line (s : string) : str := lit s ++ [newline].

(** A document with the same title twice, and one with a title of
    punctuation only. *)
Definition setup_doc : list str := [line "# Setup"; line "## Setup"].
Definition marks_doc : list str := [line "# !!!"; line "## Setup"; line "### Setup"].

Definition shown (h : GenToc.heading) : bool := negb (3 <? fst h).

(** [' '] to ['-'], what [str.replace(' ', '-')] does to one character. *)
Definition space_to_hyphen (c : ascii) : ascii :=
  if is_char 32 c then hyphen else c.

Definition starts_hyphen (s : str) : bool :=
  match s with
  | c :: _ => is_hyphen c
  | [] => false
  end.

(** What is left of a plain title after lowercasing and the removal step:
    an anchor character or a space. *)
Definition title_char (c : ascii) : bool := slug_char c || is_char 32 c.

(** A walk of one directory: a document with links of every class, an
    ignored file and a file that is not UTF-8; one link target exists. *)
Definition docs_walk : list CheckLinks.walk_entry :=
  [(lit "docs",
    [(lit "a.md",
      CheckLinks.Decoded
        (lit "[x](ok.md) [y](bad.md#s) [z](/docs/ok.md) [w](http://x) [v](#s)"));
     (lit "CHANGELOG.md", CheckLinks.Decoded (lit "[q](nope.md)"));
     (lit "b.md", CheckLinks.DecodeError)])].

Definition docs_exists (p : str) : bool := eqb_str p (lit "docs/ok.md").

(** A small documentation tree. *)
Definition docs_fs : filesystem :=
  fun p =>
    if eqb_str p (lit "docs/02-security.md")
    then Readable [line "# Security Architecture"; line "Text."]
    else if eqb_str p (lit "docs/03-deployment.md")
    then Readable [line "## Steps"]
    else if eqb_str p (lit "docs/faq.md")
    then Readable [line "# Q & A"]
    else if eqb_str p (lit "docs/doc.md")
    then Readable [line "# Doc"]
    else Absent.

Definition link (text url : string) : RewriteLinks.re_match :=
  {| RewriteLinks.text := lit text; RewriteLinks.url := lit url |}.

(** The text of a document as [link_pattern.sub] cuts it: characters
    outside every match, and matches. *)
Inductive piece :=
| Char (c : ascii)
| Link (m : RewriteLinks.re_match).

Fixpoint pieces (skip : nat) (content : str) : list piece :=
  match content with
  | [] => []
  | c :: t =>
      match skip with
      | S k => pieces k t
      | 0 =>
          match RewriteLinks.link_match content with
          | Some m =>
              Link m :: pieces (length (RewriteLinks.group0 m) - 1) t
          | None => Char c :: pieces 0 t
          end
      end
  end.

Definition render (repl : RewriteLinks.re_match -> str) (p : piece) : str :=
  match p with
  | Char c => [c]
  | Link m => repl m
  end.

Definition render_all (repl : RewriteLinks.re_match -> str)
    (ps : list piece) : str :=
  flat_map (render repl) ps.

(** The three prefixes that [replace_link] passes over. *)
Definition non_rewritable (url : str) : bool :=
  startswith (lit "http") url || startswith (lit "#") url
  || startswith (lit "mailto:") url.

(** A relative-file link: none of the prefixes, and a path component that
    is not empty. *)
Definition relative_file (link : str) : bool :=
  negb (non_rewritable link)
  && match takewhile (not_in CheckLinks.is_hash) link with
     | [] => false
     | _ => true
     end.

(** The documents that [check_links] scans in one directory, with their
    path and text. *)
Definition scanned (dirpath : str) (file : str * CheckLinks.read_result)
    : list (str * str) :=
  match file with
  | (filename, CheckLinks.Decoded content) =>
      if endswith (lit ".md") filename
         && negb (mem_str filename CheckLinks.ignored_files)
      then [(os_path_join dirpath filename, content)]
      else []
  | (_, CheckLinks.DecodeError) => []
  end.

(** The report entries of one scanned document. *)
Definition broken_in (exists_ : str -> bool) (start_path dirpath : str)
    (doc : str * str) : list (str * str) :=
  map (pair (fst doc))
      (filter
         (fun link =>
            relative_file link
            && negb (exists_ (CheckLinks.target_path start_path dirpath link)))
         (CheckLinks.findall 0 (snd doc))).

(** ** [convert_mermaid_for_pdf.py] *)

Module ConvertMermaid.

(** [str(n)], as an f-string prints a count. *)
Definition str_of_nat (n : nat) : str :=
  lit (NilEmpty.string_of_uint (Nat.to_uint n)).

Definition backtick : ascii := ascii_of_nat 96.
Definition is_backtick (c : ascii) : bool := is_char 96 c.

(** The literal parts of the pattern [```mermaid\n(.*?)\n```]. *)
Definition fence_open : str :=
  [backtick; backtick; backtick] ++ lit "mermaid" ++ [newline].
Definition fence_close : str := [newline; backtick; backtick; backtick].

(** [(.*?)\n```] under [re.DOTALL]: the lazy group ends at the first place
    where the closing fence starts; the group and what follows the match. *)
Fixpoint lazy_block (s : str) : option (str * str) :=
  match s with
  | [] => None
  | c :: t =>
      if startswith fence_close s then Some ([], skipn 4 s)
      else
        match lazy_block t with
        | Some (diagram, rest) => Some (c :: diagram, rest)
        | None => None
        end
  end.

(** The pattern matched at the head of [s]: group 1 and what follows. *)
Definition block_match (s : str) : option (str * str) :=
  if startswith fence_open s then lazy_block (skipn 11 s) else None.

(** [match.group(0)] of a match with the given group 1. *)
Definition group0 (diagram_content : str) : str :=
  fence_open ++ diagram_content ++ fence_close.

(** What [subprocess.run(['mmdc', ...], check=True)] does: it returns, it
    raises [CalledProcessError], or it raises something else (no [mmdc] on
    the path, for one). *)
Inductive conversion :=
| Converted
| Failed
| Crashed.

(** The counter of the closure and the [.mmd] files written so far, in
    the order of writing, as (path, text). *)
Record state := { diagram_count : nat; written : list (str * str) }.

Definition diagram_name (prefix : str) (n : nat) (ext : string) : str :=
  prefix ++ lit "_diagram_" ++ str_of_nat n ++ lit ext.

(** [replace_mermaid]: the new state, and the replacement text unless an
    exception other than [CalledProcessError] leaves the function. *)
Definition replace_mermaid (output_dir prefix : str)
    (mmdc : str -> str -> conversion) (st : state) (diagram_content : str)
    : state * option str :=
  let diagram_count := S (diagram_count st) in
  let diagram_file :=
    os_path_join output_dir (diagram_name prefix diagram_count ".mmd") in
  let png_file :=
    os_path_join output_dir (diagram_name prefix diagram_count ".png") in
  let st' :=
    {| diagram_count := diagram_count;
       written := written st ++ [(diagram_file, diagram_content)] |} in
  match mmdc diagram_file diagram_content with
  | Converted =>
      (st',
       Some (lit "![Diagram " ++ str_of_nat diagram_count ++ lit "]("
             ++ png_file ++ lit ")"))
  | Failed => (st', Some (group0 diagram_content))
  | Crashed => (st', None)
  end.

(** [re.sub(pattern, replace_mermaid, content, flags=re.DOTALL)], with the
    state of the closure threaded through the calls; [skip] as in
    [link_pattern_sub].  No text comes back once a call has raised. *)
Fixpoint sub_blocks (output_dir prefix : str)
    (mmdc : str -> str -> conversion) (skip : nat) (st : state)
    (content : str) : state * option str :=
  match content with
  | [] => (st, Some [])
  | c :: t =>
      match skip with
      | S k => sub_blocks output_dir prefix mmdc k st t
      | 0 =>
          match block_match content with
          | Some (diagram_content, rest) =>
              match replace_mermaid output_dir prefix mmdc st diagram_content
              with
              | (st', Some replacement) =>
                  let (st'', out) :=
                    sub_blocks output_dir prefix mmdc
                               (length t - length rest) st' t in
                  (st'', option_map (app replacement) out)
              | (st', None) => (st', None)
              end
          | None =>
              let (st', out) := sub_blocks output_dir prefix mmdc 0 st t in
              (st', option_map (cons c) out)
          end
      end
  end.

Definition initial : state := {| diagram_count := 0; written := [] |}.

(** What a call of [convert_mermaid_diagrams] leaves: the [.mmd] files, and
    either an exception or the text written to [output_file] with the
    returned count. *)
Record result := {
  mmd_files : list (str * str);
  returned : option (str * nat)
}.

(** [convert_mermaid_diagrams], given what [input_file] names. *)
Definition convert_mermaid_diagrams (input : node) (output_dir prefix : str)
    (mmdc : str -> str -> conversion) : result :=
  match input with
  | Readable lines =>
      let content := concat lines in
      match sub_blocks output_dir prefix mmdc 0 initial content with
      | (st, Some content') =>
          {| mmd_files := written st;
             returned := Some (content', diagram_count st) |}
      | (st, None) => {| mmd_files := written st; returned := None |}
      end
  | Absent | Unreadable _ => {| mmd_files := []; returned := None |}
  end.

(** [main]: the exit status, with what the conversion left when it ran. *)
Definition main (argv : list str) (fs : filesystem)
    (mmdc : str -> str -> conversion) : nat * option result :=
  match argv with
  | [_; input_file; output_file; output_dir; prefix] =>
      if negb (path_exists fs input_file) then (1, None)
      else
        let r := convert_mermaid_diagrams (fs input_file) output_dir prefix
                   mmdc in
        match returned r with
        | Some _ => (0, Some r)
        | None => (1, Some r)
        end
  | _ => (1, None)
  end.

End ConvertMermaid.

(** ** Further views *)

(** The text of a document as the substitution of [convert_mermaid_for_pdf]
    cuts it: characters outside every match, and diagram blocks. *)
Inductive mermaid_piece :=
| Text (c : ascii)
| Block (diagram_content : str).

Fixpoint mermaid_pieces (skip : nat) (content : str) : list mermaid_piece :=
  match content with
  | [] => []
  | c :: t =>
      match skip with
      | S k => mermaid_pieces k t
      | 0 =>
          match ConvertMermaid.block_match content with
          | Some (diagram_content, rest) =>
              Block diagram_content
              :: mermaid_pieces (length t - length rest) t
          | None => Text c :: mermaid_pieces 0 t
          end
      end
  end.

Definition is_block (p : mermaid_piece) : bool :=
  match p with
  | Block _ => true
  | Text _ => false
  end.

Definition count_blocks (ps : list mermaid_piece) : nat :=
  length (filter is_block ps).

(** A piece as it stands in the input. *)
Definition mermaid_source (p : mermaid_piece) : str :=
  match p with
  | Text c => [c]
  | Block d => ConvertMermaid.group0 d
  end.

(** The pieces as they stand in the output when no call raises; [n] blocks
    precede them. *)
Fixpoint mermaid_output (output_dir prefix : str)
    (mmdc : str -> str -> ConvertMermaid.conversion) (n : nat)
    (ps : list mermaid_piece) : str :=
  match ps with
  | [] => []
  | Text c :: rest => c :: mermaid_output output_dir prefix mmdc n rest
  | Block d :: rest =>
      let mmd :=
        os_path_join output_dir
          (ConvertMermaid.diagram_name prefix (S n) ".mmd") in
      let png :=
        os_path_join output_dir
          (ConvertMermaid.diagram_name prefix (S n) ".png") in
      match mmdc mmd d with
      | ConvertMermaid.Converted =>
          lit "![Diagram " ++ ConvertMermaid.str_of_nat (S n) ++ lit "]("
          ++ png ++ lit ")"
      | _ => ConvertMermaid.group0 d
      end
      ++ mermaid_output output_dir prefix mmdc (S n) rest
  end.

(** The [.mmd] files of the blocks among the pieces, [n] blocks before. *)
Fixpoint mermaid_files (output_dir prefix : str) (n : nat)
    (ps : list mermaid_piece) : list (str * str) :=
  match ps with
  | [] => []
  | Text _ :: rest => mermaid_files output_dir prefix n rest
  | Block d :: rest =>
      (os_path_join output_dir
         (ConvertMermaid.diagram_name prefix (S n) ".mmd"), d)
      :: mermaid_files output_dir prefix (S n) rest
  end.

(** No call of the converter raises anything but [CalledProcessError]. *)
Definition never_crashes (mmdc : str -> str -> ConvertMermaid.conversion)
    : Prop :=
  forall file text, mmdc file text <> ConvertMermaid.Crashed.

Definition no_newline (s : str) : bool :=
  forallb (fun c => negb (is_char 10 c)) s.

Definition is_lbracket (c : ascii) : bool := is_char 91 c.

(** A link that [replace_link] returns as it is. *)
Definition kept_link (url : str) : bool :=
  non_rewritable url || negb (endswith (lit ".md") url).

Definition link_pieces_kept (ps : list piece) : bool :=
  forallb
    (fun p =>
       match p with
       | Char _ => true
       | Link m => kept_link (RewriteLinks.url m)
       end)
    ps.

(** Whether a line is one that [replace_link] takes for the first H1. *)
Definition h1_line (line : str) : bool := startswith (lit "# ") line.

(** A converter that fails on the second diagram of a run. *)
Definition second_fails (file text : str) : ConvertMermaid.conversion :=
  if endswith (lit "_2.mmd") file then ConvertMermaid.Failed
  else ConvertMermaid.Converted.

Definition two_diagrams : str :=
  lit "A" ++ ConvertMermaid.group0 (lit "graph TD") ++ lit "B"
  ++ ConvertMermaid.group0 (lit "pie") ++ lit "C"
  ++ ConvertMermaid.group0 (lit "flowchart LR").

(** A character that the lazy group of the pattern of [check_links] can
    hold: neither [')'] nor a newline. *)
Definition target_char (c : ascii) : bool :=
  negb (is_char 41 c) && negb (is_char 10 c).

(** A character that the lazy text part of that pattern passes over when no
    link ends there: neither [']'] nor a newline. *)
Definition text_char (c : ascii) : bool :=
  negb (is_char 93 c) && negb (is_char 10 c).

(** [sub in s] *)
Fixpoint is_infix (sub s : str) : bool :=
  match s with
  | [] => startswith sub []
  | _ :: t => startswith sub s || is_infix sub t
  end.

(** A text in which a link to an external page follows an unfinished
    link on the line before. *)
Definition swallowed_doc : str :=
  lit "see [docs](intro" ++ newline
  :: lit "and [readme](https://github.com/x/README.md) end".

(** * Properties *)

(** ** Characters *)

Ltac each_char c :=
  destruct c as [[] [] [] [] [] [] [] []]; vm_compute;
  try solve [ reflexivity | discriminate | intuition congruence ].

Lemma is_hyphen_eq (c : ascii) : is_hyphen c = true -> c = hyphen.
Proof. each_char c. Qed.

Lemma slug_char_not_space (c : ascii) :
  slug_char c = true -> is_space c = false.
Proof. each_char c. Qed.

Lemma slug_char_lower (c : ascii) : slug_char c = true -> lower_char c = c.
Proof. each_char c. Qed.

Lemma slug_char_kept (c : ascii) :
  slug_char c = true -> GenToc.not_slug_input c = false.
Proof. each_char c. Qed.

Lemma kept_not_separator (c : ascii) :
  Spec.kept c = true -> Spec.separator c = false ->
  is_hyphen c = false /\ is_az c || is_09 c = true.
Proof. each_char c. Qed.

Lemma letter_not_separator (c : ascii) :
  is_az c || is_09 c = true -> GenToc.space_or_hyphen c = false.
Proof. each_char c. Qed.

Lemma ascii_alnum_lower (c : ascii) :
  ascii_alnum c = true ->
  is_space c = false /\ is_az (lower_char c) || is_09 (lower_char c) = true.
Proof. each_char c. Qed.

(** ** Strings *)

Lemma dropwhile_snoc (f : ascii -> bool) (s : str) (c : ascii) :
  dropwhile f (s ++ [c]) =
  match dropwhile f s with
  | [] => if f c then [] else [c]
  | r => r ++ [c]
  end.
Proof.
  induction s as [|x s IH]; simpl.
  - reflexivity.
  - destruct (f x); [exact IH | reflexivity].
Qed.

Lemma rstrip_rev (s : str) : rstrip s = rev (dropwhile is_space (rev s)).
Proof.
  induction s as [|c s IH]; simpl; [reflexivity|].
  rewrite dropwhile_snoc, IH.
  destruct (dropwhile is_space (rev s)) as [|x r] eqn:E; simpl.
  - destruct (is_space c); reflexivity.
  - rewrite rev_app_distr. simpl.
    destruct (rev r ++ [x]) eqn:E'; [|reflexivity].
    destruct (rev r); discriminate.
Qed.

Lemma strip_trim (s : str) : strip s = Spec.trim s.
Proof. unfold strip, Spec.trim, lstrip. apply rstrip_rev. Qed.

Lemma dropwhile_none (f : ascii -> bool) (s : str) :
  forallb (fun c => negb (f c)) s = true -> dropwhile f s = s.
Proof.
  destruct s as [|c s]; simpl; [reflexivity|].
  destruct (f c); simpl; [discriminate | reflexivity].
Qed.

Lemma rstrip_none (s : str) :
  forallb (fun c => negb (is_space c)) s = true -> rstrip s = s.
Proof.
  induction s as [|c s IH]; simpl; [reflexivity|].
  intros H. apply andb_prop in H. destruct H as [Hc Hs].
  rewrite (IH Hs). destruct s; [|reflexivity].
  destruct (is_space c); [discriminate | reflexivity].
Qed.

Lemma strip_none (s : str) :
  forallb (fun c => negb (is_space c)) s = true -> strip s = s.
Proof.
  intros H. unfold strip, lstrip.
  rewrite (dropwhile_none _ _ H). apply rstrip_none, H.
Qed.

(** ** The two substitutions of [slugify] *)

Lemma re_sub_class_filter (cls : ascii -> bool) (s : str) :
  re_sub_class cls [] s = filter (fun c => negb (cls c)) s.
Proof.
  induction s as [|c s IH]; simpl; [reflexivity|].
  destruct (cls c); simpl; rewrite IH; reflexivity.
Qed.

Lemma remove_filter_kept (s : str) :
  re_sub_class GenToc.not_slug_input [] s = Spec.remove_others s.
Proof.
  rewrite re_sub_class_filter. unfold Spec.remove_others.
  apply filter_ext. intros c. unfold GenToc.not_slug_input, Spec.kept.
  apply negb_involutive.
Qed.

Lemma collapse_sep (c d : ascii) (s : str) :
  Spec.separator c = true ->
  Spec.collapse (c :: d :: s) =
  if Spec.separator d then Spec.collapse (d :: s)
  else hyphen :: Spec.collapse (d :: s).
Proof. intros Hc. simpl. rewrite Hc. reflexivity. Qed.

Lemma collapse_other (c : ascii) (s : str) :
  Spec.separator c = false -> Spec.collapse (c :: s) = c :: Spec.collapse s.
Proof. intros Hc. simpl. rewrite Hc. reflexivity. Qed.

Lemma runs_cons (c : ascii) (b : bool) (s : str) :
  re_sub_runs GenToc.space_or_hyphen [hyphen] b (c :: s) =
  if Spec.separator c then
    if b then re_sub_runs GenToc.space_or_hyphen [hyphen] true s
    else hyphen :: re_sub_runs GenToc.space_or_hyphen [hyphen] true s
  else c :: re_sub_runs GenToc.space_or_hyphen [hyphen] false s.
Proof. reflexivity. Qed.

Lemma runs_collapse (s : str) :
  re_sub_runs GenToc.space_or_hyphen [hyphen] false s = Spec.collapse s
  /\ forall c, Spec.separator c = true ->
       hyphen :: re_sub_runs GenToc.space_or_hyphen [hyphen] true s
       = Spec.collapse (c :: s).
Proof.
  induction s as [|d s [IH1 IH2]].
  - split; [reflexivity|]. intros c Hc. simpl. rewrite Hc. reflexivity.
  - assert (H1 : re_sub_runs GenToc.space_or_hyphen [hyphen] false (d :: s)
                 = Spec.collapse (d :: s)).
    { rewrite runs_cons. destruct (Spec.separator d) eqn:Hd.
      - apply IH2, Hd.
      - rewrite (collapse_other d s Hd), IH1. reflexivity. }
    split; [exact H1|].
    intros c Hc. rewrite (collapse_sep c d s Hc), runs_cons.
    destruct (Spec.separator d) eqn:Hd.
    + apply IH2, Hd.
    + rewrite <- H1, runs_cons, Hd. reflexivity.
Qed.

Lemma slugify_spec (title : str) : GenToc.slugify title = Spec.slug title.
Proof.
  unfold GenToc.slugify, Spec.slug, lower, Spec.lowercase.
  rewrite remove_filter_kept, strip_trim. apply runs_collapse.
Qed.

(** ** The form of a slug *)

Lemma runs_slug_form (s : str) (b : bool) :
  forallb Spec.kept s = true ->
  slug_form b (re_sub_runs GenToc.space_or_hyphen [hyphen] b s) = true.
Proof.
  revert b. induction s as [|c s IH]; intros b H; [reflexivity|].
  simpl in H. apply andb_prop in H. destruct H as [Hc Hs].
  cbn [re_sub_runs]. change (GenToc.space_or_hyphen c) with (Spec.separator c).
  destruct (Spec.separator c) eqn:Hsep.
  - destruct b; [apply IH, Hs|].
    simpl app. cbn [slug_form]. change (is_hyphen hyphen) with true.
    cbn beta iota. simpl negb. rewrite (IH true Hs). reflexivity.
  - destruct (kept_not_separator c Hc Hsep) as [Hh Hl].
    cbn [slug_form]. rewrite Hh, Hl, (IH false Hs). reflexivity.
Qed.

Lemma slug_form_chars (s : str) (b : bool) :
  slug_form b s = true -> forallb slug_char s = true.
Proof.
  revert b. induction s as [|c s IH]; intros b H; [reflexivity|].
  cbn [slug_form] in H. cbn [forallb]. unfold slug_char at 1.
  destruct (is_hyphen c) eqn:Hh.
  - apply andb_prop in H. destruct H as [_ H].
    rewrite (IH _ H), orb_true_r. reflexivity.
  - apply andb_prop in H. destruct H as [Hl H].
    rewrite Hl, (IH _ H). reflexivity.
Qed.

Lemma slug_form_runs (s : str) (b : bool) :
  slug_form b s = true ->
  re_sub_runs GenToc.space_or_hyphen [hyphen] b s = s.
Proof.
  revert b. induction s as [|c s IH]; intros b H; [reflexivity|].
  cbn [slug_form] in H. rewrite runs_cons. unfold Spec.separator.
  destruct (is_hyphen c) eqn:Hh.
  - apply andb_prop in H. destruct H as [Hb H].
    rewrite orb_true_r. destruct b; [discriminate|].
    rewrite (IH _ H), (is_hyphen_eq c Hh). reflexivity.
  - apply andb_prop in H. destruct H as [Hl H].
    pose proof (letter_not_separator c Hl) as Hs.
    unfold GenToc.space_or_hyphen in Hs. rewrite Hh in Hs.
    rewrite Hs, (IH _ H). reflexivity.
Qed.

Lemma forallb_impl (f g : ascii -> bool) (s : str) :
  (forall c, f c = true -> g c = true) ->
  forallb f s = true -> forallb g s = true.
Proof.
  intros Hfg H. rewrite forallb_forall in *. auto.
Qed.

Lemma filter_kept_all (s : str) : forallb Spec.kept (Spec.remove_others s) = true.
Proof.
  apply forallb_forall. intros c Hc.
  apply filter_In in Hc. apply Hc.
Qed.

Lemma slugify_form (title : str) : slug_form false (GenToc.slugify title) = true.
Proof.
  unfold GenToc.slugify. rewrite remove_filter_kept.
  apply runs_slug_form, filter_kept_all.
Qed.

Lemma slug_form_fixed (s : str) :
  slug_form false s = true -> GenToc.slugify s = s.
Proof.
  intros H. pose proof (slug_form_chars _ _ H) as Hc.
  unfold GenToc.slugify.
  rewrite strip_none
    by (apply (forallb_impl slug_char); [|exact Hc];
        intros c Hs; rewrite (slug_char_not_space c Hs); reflexivity).
  assert (Hl : lower s = s).
  { unfold lower. rewrite <- (map_id s) at 2. apply map_ext_in.
    intros c Hin. apply slug_char_lower.
    rewrite forallb_forall in Hc. auto. }
  rewrite Hl, re_sub_class_filter.
  assert (Hf : filter (fun c => negb (GenToc.not_slug_input c)) s = s).
  { apply forallb_filter_id. apply (forallb_impl slug_char); [|exact Hc].
    intros c Hs. rewrite (slug_char_kept c Hs). reflexivity. }
  rewrite Hf. apply slug_form_runs, H.
Qed.

(** C6 — [slugify] is the four-step algorithm: trim, lowercase, remove
    every character that is not a lowercase letter, digit, space or hyphen,
    collapse every run of whitespace-or-hyphen into one hyphen.  Being a
    function of its argument it is deterministic; the two sample titles
    give [hello-world] and [multiple-spaces]. *)
Theorem slugify_algorithm :
  (forall title,
     GenToc.slugify title =
     Spec.collapse (Spec.remove_others (Spec.lowercase (Spec.trim title))))
  /\ GenToc.slugify (lit "Hello, World!") = lit "hello-world"
  /\ GenToc.slugify (lit "  Multiple   Spaces  ") = lit "multiple-spaces".
Proof.
  split; [exact slugify_spec|]. split; reflexivity.
Qed.

(** C10 — [slugify] is idempotent: a slug fed through slug generation
    again is unchanged. *)
Theorem slugify_idempotent (s : str) :
  GenToc.slugify (GenToc.slugify s) = GenToc.slugify s.
Proof. apply slug_form_fixed, slugify_form. Qed.

(** ** The table of contents *)

Lemma repeat_two_spaces (n : nat) :
  repeat_str (lit "  ") n = repeat space (2 * n).
Proof.
  induction n as [|n IH]; [reflexivity|].
  replace (2 * S n) with (S (S (2 * n))) by lia.
  simpl repeat. cbn [repeat_str]. rewrite IH. reflexivity.
Qed.

Lemma toc_step_lines (toc_lines : list str) (h : GenToc.heading) :
  GenToc.toc_step toc_lines h = toc_lines ++ heading_lines h.
Proof.
  destruct h as [level title]. unfold GenToc.toc_step, heading_lines.
  destruct (Nat.ltb_spec 3 level) as [H|H].
  - destruct (Nat.leb_spec level 3); [lia|]. symmetry. apply app_nil_r.
  - destruct (Nat.leb_spec level 3); [|lia].
    unfold GenToc.toc_line. rewrite repeat_two_spaces. reflexivity.
Qed.

Lemma toc_loop_lines (headings : list GenToc.heading) (toc_lines : list str) :
  fold_left GenToc.toc_step headings toc_lines
  = toc_lines ++ flat_map heading_lines headings.
Proof.
  revert toc_lines. induction headings as [|h hs IH]; intros acc; simpl.
  - symmetry. apply app_nil_r.
  - rewrite IH, toc_step_lines, <- app_assoc. reflexivity.
Qed.

Lemma parse_headings_from (lines : list str) (acc : list GenToc.heading) :
  fold_left
    (fun headings line =>
       match GenToc.HEADING_PATTERN_match line with
       | None => headings
       | Some (level, title) => headings ++ [(level, strip title)]
       end)
    lines acc
  = acc ++ flat_map line_headings lines.
Proof.
  revert acc. induction lines as [|l ls IH]; intros acc; simpl.
  - symmetry. apply app_nil_r.
  - rewrite IH. unfold line_headings at 2.
    destruct (GenToc.HEADING_PATTERN_match l) as [[level title]|].
    + rewrite <- app_assoc. reflexivity.
    + reflexivity.
Qed.

Lemma parse_headings_lines (lines : list str) :
  GenToc.parse_headings lines = flat_map line_headings lines.
Proof. apply parse_headings_from. Qed.

(** The lines that one input file accounts for. *)
Lemma main_files_none (fs : filesystem) (files : list str) :
  fold_left (GenToc.main_file fs) files None = None.
Proof. induction files; simpl; auto. Qed.

Lemma main_files_lines (fs : filesystem) (files : list str)
    (toc_lines : list str) :
  fold_left (GenToc.main_file fs) files (Some toc_lines) =
  if existsb (fun file => unreadable (fs file)) files then None
  else
    Some (toc_lines
          ++ flat_map
               (fun file =>
                  flat_map heading_lines
                    (flat_map line_headings (node_lines (fs file))))
               files).
Proof.
  revert toc_lines. induction files as [|f fl IH]; intros acc; simpl.
  - rewrite app_nil_r. reflexivity.
  - destruct (fs f) as [|lines|lines]; simpl.
    + apply IH.
    + rewrite IH, toc_loop_lines, parse_headings_lines, <- app_assoc.
      reflexivity.
    + apply main_files_none.
Qed.

(** C7 — every extracted heading of level at most 3 accounts for exactly
    one line of the table of contents (two spaces of indentation per level
    above 1, the title as display text, [#slug] as target), a heading of a
    deeper level for none; the lines follow the order of the documents and,
    within a document, the order of its headings. *)
Theorem toc_depth_and_order (fs : filesystem) (files : list str) :
  GenToc.main fs files =
  match files with
  | [] => GenToc.Exit 1 None
  | _ =>
      if existsb (fun file => unreadable (fs file)) files then GenToc.Raised
      else
        GenToc.Exit 0
          (Some
             (join_str [newline]
                (GenToc.toc_header
                 ++ flat_map
                      (fun file =>
                         flat_map heading_lines
                           (flat_map line_headings (node_lines (fs file))))
                      files
                 ++ [GenToc.page_break])
              ++ [newline]))
  end.
Proof.
  unfold GenToc.main. destruct files as [|f fl]; [reflexivity|].
  rewrite main_files_lines.
  destruct (existsb _ (f :: fl)); [reflexivity|].
  rewrite <- app_assoc. reflexivity.
Qed.

(** ** Slugs of the headings of one document *)

Lemma toc_loop_split (before after : list GenToc.heading)
    (h : GenToc.heading) :
  fold_left GenToc.toc_step (before ++ h :: after) []
  = fold_left GenToc.toc_step before [] ++ heading_lines h
    ++ fold_left GenToc.toc_step after [].
Proof.
  rewrite !toc_loop_lines. simpl.
  rewrite flat_map_app. reflexivity.
Qed.

(** C1, as the code has it — the anchor of a heading is [slugify] of its
    own title whatever was assigned before it in the document: no suffix is
    appended, and headings of every level are treated alike. *)
Theorem slug_ignores_earlier_headings
    (before after : list GenToc.heading) (level : nat) (title : str) :
  level <= 3 ->
  fold_left GenToc.toc_step (before ++ (level, title) :: after) []
  = fold_left GenToc.toc_step before []
    ++ [repeat space (2 * (level - 1)) ++ lit "- [" ++ title ++ lit "](#"
          ++ GenToc.slugify title ++ lit ")"]
    ++ fold_left GenToc.toc_step after []
  /\ GenToc.assigned_slugs (before ++ (level, title) :: after)
     = GenToc.assigned_slugs before ++ GenToc.slugify title
       :: GenToc.assigned_slugs after.
Proof.
  intros Hl. split.
  - rewrite toc_loop_split. unfold heading_lines.
    destruct (Nat.leb_spec level 3); [reflexivity | lia].
  - unfold GenToc.assigned_slugs. rewrite filter_app, map_app. simpl.
    destruct (Nat.ltb_spec 3 level); [lia | reflexivity].
Qed.

Lemma slug_ignores_earlier_headings_witness :
  fold_left GenToc.toc_step (GenToc.parse_headings setup_doc) []
  = [lit "- [Setup](#setup)"; lit "  - [Setup](#setup)"].
Proof.
  destruct (slug_ignores_earlier_headings
              [(1, lit "Setup")] [] 2 (lit "Setup")) as [H _].
  - repeat constructor.
  - exact H.
Defined.

(** C1 fails on the code: for two headings titled "Setup" the second
    anchor is [setup] again, not [setup-1]. *)
Lemma setup_twice_not_disambiguated :
  let headings := GenToc.parse_headings setup_doc in
  GenToc.assigned_slugs headings = [lit "setup"; lit "setup"]
  /\ Spec.resolve (map snd headings) = [lit "setup"; lit "setup-1"]
  /\ GenToc.assigned_slugs headings <> Spec.resolve (map snd headings).
Proof.
  split; [reflexivity|]. split; [reflexivity|].
  vm_compute. discriminate.
Qed.

Lemma dropwhile_keeps (f : ascii -> bool) (c : ascii) (s : str) :
  In c s -> f c = false -> In c (dropwhile f s).
Proof.
  induction s as [|x s IH]; simpl; [tauto|].
  intros [->|Hin] Hc.
  - rewrite Hc. left. reflexivity.
  - destruct (f x); [auto | right; exact Hin].
Qed.

Lemma rstrip_keeps (c : ascii) (s : str) :
  In c s -> is_space c = false -> In c (rstrip s).
Proof.
  induction s as [|x s IH]; simpl; [tauto|].
  intros [->|Hin] Hc.
  - destruct (rstrip s); [rewrite Hc|]; left; reflexivity.
  - specialize (IH Hin Hc). destruct (rstrip s); [destruct IH|].
    right. exact IH.
Qed.

Lemma runs_keeps (c : ascii) (b : bool) (s : str) :
  In c s -> Spec.separator c = false ->
  In c (re_sub_runs GenToc.space_or_hyphen [hyphen] b s).
Proof.
  revert b. induction s as [|x s IH]; intros b; simpl In at 1; [tauto|].
  intros [->|Hin] Hc; rewrite runs_cons.
  - rewrite Hc. left. reflexivity.
  - destruct (Spec.separator x); [destruct b|]; try right; auto.
Qed.

Lemma slugify_keeps (c : ascii) (title : str) :
  In c title -> ascii_alnum c = true -> In (lower_char c) (GenToc.slugify title).
Proof.
  intros Hin Hc. destruct (ascii_alnum_lower c Hc) as [Hs Hl].
  unfold GenToc.slugify. apply runs_keeps.
  - rewrite remove_filter_kept. apply filter_In. split.
    + apply in_map. unfold strip, lstrip.
      apply rstrip_keeps; [apply dropwhile_keeps|]; assumption.
    + unfold Spec.kept. rewrite <- !orb_assoc, orb_assoc, Hl. reflexivity.
  - pose proof (letter_not_separator _ Hl) as H. exact H.
Qed.

(** C4, as the code has it — the slug of a heading is [slugify] of its
    title: a string of the characters a to z, 0 to 9 and hyphen with no two
    hyphens in a row, which is not empty when the title has an ASCII
    letter or digit.  Nothing makes it non-empty otherwise, and nothing
    makes the slugs of one document differ. *)
Theorem heading_slug_shape
    (headings : list GenToc.heading) (level : nat) (title : str) :
  In (level, title) headings -> level <= 3 ->
  In (GenToc.slugify title) (GenToc.assigned_slugs headings)
  /\ slug_form false (GenToc.slugify title) = true
  /\ (existsb ascii_alnum title = false \/ GenToc.slugify title <> []).
Proof.
  intros Hin Hl. split; [|split].
  - unfold GenToc.assigned_slugs.
    apply (in_map (fun h => GenToc.slugify (snd h)) _ (level, title)).
    apply filter_In. split; [exact Hin|]. simpl.
    destruct (Nat.ltb_spec 3 level); [lia | reflexivity].
  - apply slugify_form.
  - destruct (existsb ascii_alnum title) eqn:E; [right | left; reflexivity].
    apply existsb_exists in E. destruct E as (c & Hc & Ha).
    pose proof (slugify_keeps c title Hc Ha) as H.
    intros E. rewrite E in H. exact H.
Qed.

Lemma heading_slug_shape_witness :
  In (lit "setup") (GenToc.assigned_slugs (GenToc.parse_headings marks_doc))
  /\ slug_form false (lit "setup") = true
  /\ (existsb ascii_alnum (lit "Setup") = false \/ lit "setup" <> []).
Proof.
  apply (heading_slug_shape (GenToc.parse_headings marks_doc) 2 (lit "Setup")).
  - right. left. reflexivity.
  - repeat constructor.
Defined.

(** C4 fails on the code: a title of punctuation only has the empty slug,
    and two headings titled alike have the same slug. *)
Lemma marks_doc_breaks_invariant :
  let slugs := GenToc.assigned_slugs (GenToc.parse_headings marks_doc) in
  slugs = [[]; lit "setup"; lit "setup"]
  /\ ~ Forall (fun s => s <> []) slugs
  /\ ~ NoDup slugs.
Proof.
  split; [reflexivity|]. split.
  - intros H. inversion H as [|s l Hs _]. apply Hs. reflexivity.
  - intros H. inversion H as [|s l _ H1]. inversion H1 as [|s' l' Hn _].
    apply Hn. left. reflexivity.
Qed.

(** ** The matches of [rewrite_links] *)

Lemma is_char_eq (n : nat) (c : ascii) :
  is_char n c = true -> c = ascii_of_nat n.
Proof.
  unfold is_char, code. intros H. apply Nat.eqb_eq in H.
  rewrite <- H. symmetry. apply ascii_nat_embedding.
Qed.

Lemma take_drop (f : ascii -> bool) (s : str) :
  takewhile f s ++ dropwhile f s = s.
Proof.
  induction s as [|c s IH]; simpl; [reflexivity|].
  destruct (f c); simpl; [rewrite IH|]; reflexivity.
Qed.

Lemma dropwhile_head (f : ascii -> bool) (s : str) (c : ascii) (r : str) :
  dropwhile f s = c :: r -> f c = false.
Proof.
  induction s as [|x s IH]; simpl; [discriminate|].
  destruct (f x) eqn:E; [exact IH|].
  intros H. injection H as -> _. exact E.
Qed.

Lemma not_in_false (f : ascii -> bool) (c : ascii) :
  not_in f c = false -> f c = true.
Proof. unfold not_in. destruct (f c); [reflexivity | discriminate]. Qed.

(** A match is a prefix of the text it is found in. *)
Lemma link_match_prefix (s : str) (m : RewriteLinks.re_match) :
  RewriteLinks.link_match s = Some m ->
  exists rest, s = RewriteLinks.group0 m ++ rest.
Proof.
  unfold RewriteLinks.link_match. destruct s as [|c t]; [discriminate|].
  destruct (is_char 91 c) eqn:Hc; [|discriminate].
  pose proof (take_drop (not_in RewriteLinks.is_rbracket) t) as Ht.
  destruct (takewhile (not_in RewriteLinks.is_rbracket) t) as [|x tx] eqn:E1;
    [discriminate|].
  destruct (dropwhile (not_in RewriteLinks.is_rbracket) t) as [|rb [|lp r]] eqn:E2;
    try discriminate.
  destruct (is_char 40 lp) eqn:Hlp; [|discriminate].
  pose proof (take_drop (not_in RewriteLinks.is_rparen) r) as Hr.
  destruct (takewhile (not_in RewriteLinks.is_rparen) r) as [|y ty] eqn:E3;
    [discriminate|].
  destruct (dropwhile (not_in RewriteLinks.is_rparen) r) as [|rp rest] eqn:E4;
    [discriminate|].
  intros H. injection H as <-. exists rest.
  apply dropwhile_head, not_in_false, is_char_eq in E2.
  apply dropwhile_head, not_in_false, is_char_eq in E4.
  apply is_char_eq in Hc. apply is_char_eq in Hlp.
  unfold RewriteLinks.group0. cbn [RewriteLinks.text RewriteLinks.url].
  subst c rb lp rp. rewrite <- Ht, <- Hr.
  change (lit "[") with [ascii_of_nat 91].
  change (lit "](") with [ascii_of_nat 93; ascii_of_nat 40].
  change (lit ")") with [ascii_of_nat 41].
  simpl. rewrite <- !app_assoc. simpl. rewrite <- !app_assoc. reflexivity.
Qed.

Lemma render_all_cons (repl : RewriteLinks.re_match -> str) (p : piece)
    (ps : list piece) :
  render_all repl (p :: ps) = render repl p ++ render_all repl ps.
Proof. reflexivity. Qed.

Lemma sub_pieces (repl : RewriteLinks.re_match -> str) (skip : nat)
    (content : str) :
  RewriteLinks.link_pattern_sub repl skip content
  = render_all repl (pieces skip content).
Proof.
  revert skip. induction content as [|c t IH]; intros skip; [reflexivity|].
  cbn [RewriteLinks.link_pattern_sub pieces]. destruct skip as [|k].
  - destruct (RewriteLinks.link_match (c :: t)) as [m|];
      rewrite render_all_cons, IH; reflexivity.
  - apply IH.
Qed.

(** Rendering every match as itself gives the text back. *)
Lemma pieces_original (skip : nat) (content : str) :
  render_all RewriteLinks.group0 (pieces skip content) = skipn skip content.
Proof.
  revert skip. induction content as [|c t IH]; intros skip.
  - destruct skip; reflexivity.
  - cbn [pieces]. destruct skip as [|k]; [|apply IH].
    destruct (RewriteLinks.link_match (c :: t)) as [m|] eqn:E.
    + destruct (link_match_prefix _ _ E) as [rest Hrest].
      rewrite render_all_cons, IH. cbn [skipn render].
      destruct (RewriteLinks.group0 m) as [|g0 g] eqn:Eg; [discriminate|].
      simpl in Hrest. injection Hrest as -> ->.
      simpl. rewrite Nat.sub_0_r.
      rewrite skipn_app, skipn_all, Nat.sub_diag. reflexivity.
    + rewrite render_all_cons, IH. reflexivity.
Qed.

(** A match found in a document: the text is the pieces with every match
    as itself, the output is the pieces with every match replaced. *)
Lemma rewrite_at (fs : filesystem) (content filename : str)
    (pre post : list piece) (m : RewriteLinks.re_match) :
  pieces 0 content = pre ++ Link m :: post ->
  content = render_all RewriteLinks.group0 pre ++ RewriteLinks.group0 m
            ++ render_all RewriteLinks.group0 post
  /\ RewriteLinks.rewrite_links fs content filename
     = render_all (RewriteLinks.replace_link fs filename) pre
       ++ RewriteLinks.replace_link fs filename m
       ++ render_all (RewriteLinks.replace_link fs filename) post.
Proof.
  intros H. split.
  - pose proof (pieces_original 0 content) as Ho. rewrite H in Ho.
    unfold render_all in *. rewrite flat_map_app in Ho. simpl in Ho.
    symmetry. exact Ho.
  - unfold RewriteLinks.rewrite_links. rewrite sub_pieces, H.
    unfold render_all. rewrite flat_map_app. reflexivity.
Qed.

Lemma replace_link_non_rewritable (fs : filesystem) (filename : str)
    (m : RewriteLinks.re_match) :
  non_rewritable (RewriteLinks.url m) = true ->
  RewriteLinks.replace_link fs filename m = RewriteLinks.group0 m.
Proof.
  unfold RewriteLinks.replace_link, non_rewritable. intros ->. reflexivity.
Qed.

Lemma replace_link_other_suffix (fs : filesystem) (filename : str)
    (m : RewriteLinks.re_match) :
  endswith (lit ".md") (RewriteLinks.url m) = false ->
  RewriteLinks.replace_link fs filename m = RewriteLinks.group0 m.
Proof.
  unfold RewriteLinks.replace_link. intros ->.
  destruct (_ || _ || _); reflexivity.
Qed.

(** C8, as the code has it — a link that the left-to-right scan of
    [link_pattern] matches and whose target starts with [http], [#] or
    [mailto:] stands in the output of [rewrite_links] byte for byte as in
    the input, between the rewritten pieces that precede and follow it.
    A link that lies inside an earlier match is no match of its own. *)
Theorem non_rewritable_link_identical (fs : filesystem)
    (content filename : str) (pre post : list piece)
    (m : RewriteLinks.re_match) :
  pieces 0 content = pre ++ Link m :: post ->
  non_rewritable (RewriteLinks.url m) = true ->
  content = render_all RewriteLinks.group0 pre ++ RewriteLinks.group0 m
            ++ render_all RewriteLinks.group0 post
  /\ RewriteLinks.rewrite_links fs content filename
     = render_all (RewriteLinks.replace_link fs filename) pre
       ++ RewriteLinks.group0 m
       ++ render_all (RewriteLinks.replace_link fs filename) post.
Proof.
  intros H Hn. destruct (rewrite_at fs content filename pre post m H) as [Hc Hr].
  split; [exact Hc|].
  rewrite Hr, (replace_link_non_rewritable fs filename m Hn). reflexivity.
Qed.

(** C9 — a link occurrence whose target does not end with [.md] stands in
    the output byte for byte as in the input, whatever the target names:
    only targets ending with [.md] are ever rewritten. *)
Theorem only_md_suffix_rewritten (fs : filesystem)
    (content filename : str) (pre post : list piece)
    (m : RewriteLinks.re_match) :
  pieces 0 content = pre ++ Link m :: post ->
  endswith (lit ".md") (RewriteLinks.url m) = false ->
  content = render_all RewriteLinks.group0 pre ++ RewriteLinks.group0 m
            ++ render_all RewriteLinks.group0 post
  /\ RewriteLinks.rewrite_links fs content filename
     = render_all (RewriteLinks.replace_link fs filename) pre
       ++ RewriteLinks.group0 m
       ++ render_all (RewriteLinks.replace_link fs filename) post.
Proof.
  intros H Hn. destruct (rewrite_at fs content filename pre post m H) as [Hc Hr].
  split; [exact Hc|].
  rewrite Hr, (replace_link_other_suffix fs filename m Hn). reflexivity.
Qed.

Lemma non_rewritable_link_identical_witness :
  RewriteLinks.rewrite_links docs_fs
    (lit "See [site](http://example.com/a.md) now") (lit "docs/a.md")
  = lit "See [site](http://example.com/a.md) now".
Proof.
  destruct (non_rewritable_link_identical docs_fs
              (lit "See [site](http://example.com/a.md) now") (lit "docs/a.md")
              (map Char (lit "See ")) (map Char (lit " now"))
              (link "site" "http://example.com/a.md")) as [_ H].
  - reflexivity.
  - reflexivity.
  - exact H.
Defined.

Lemma only_md_suffix_rewritten_witness :
  path_exists docs_fs (lit "docs/doc.md") = true
  /\ RewriteLinks.rewrite_links docs_fs
       (lit "[s](doc.md#section) [d](doc.md)") (lit "docs/a.md")
     = lit "[s](doc.md#section) [d](#doc)".
Proof.
  split; [reflexivity|].
  destruct (only_md_suffix_rewritten docs_fs
              (lit "[s](doc.md#section) [d](doc.md)") (lit "docs/a.md")
              [] [Char space; Link (link "d" "doc.md")]
              (link "s" "doc.md#section")) as [_ H].
  - reflexivity.
  - reflexivity.
  - exact H.
Defined.





(** ** The anchor of [rewrite_links] against [slugify] *)

Lemma plain_anchor_char (c : ascii) :
  plain_char c = true ->
  RewriteLinks.not_word_or_hyphen (space_to_hyphen (lower_char c))
  = negb (Spec.kept (lower_char c))
  /\ (Spec.kept (lower_char c) = true -> title_char (lower_char c) = true)
  /\ is_char 32 (lower_char c) = is_char 32 c.
Proof. each_char c. Qed.

Lemma title_char_facts (c : ascii) :
  title_char c = true ->
  slug_char (space_to_hyphen c) = true
  /\ Spec.separator (space_to_hyphen c) = Spec.separator c
  /\ (Spec.separator c = false -> space_to_hyphen c = c).
Proof. each_char c. Qed.

Lemma replace_space_map (s : str) :
  re_sub_class (is_char 32) [hyphen] s = map space_to_hyphen s.
Proof.
  induction s as [|c s IH]; simpl; [reflexivity|].
  unfold space_to_hyphen at 1. destruct (is_char 32 c); rewrite IH; reflexivity.
Qed.

Lemma header_anchor_plain (h : str) :
  forallb plain_char h = true ->
  RewriteLinks.header_anchor h
  = map space_to_hyphen (Spec.remove_others (lower h))
  /\ forallb title_char (Spec.remove_others (lower h)) = true.
Proof.
  unfold RewriteLinks.header_anchor. rewrite replace_space_map, re_sub_class_filter.
  unfold lower, Spec.remove_others.
  induction h as [|c h IH]; [split; reflexivity|].
  intros H. cbn [forallb] in H. apply andb_prop in H. destruct H as [Hc Hh].
  destruct (IH Hh) as [IH1 IH2].
  destruct (plain_anchor_char c Hc) as (E1 & E2 & _).
  cbn [map filter]. rewrite E1, negb_involutive.
  destruct (Spec.kept (lower_char c)) eqn:K; cbn [negb map forallb].
  - rewrite IH1, (E2 eq_refl), IH2. split; reflexivity.
  - split; assumption.
Qed.

Lemma runs_space_to_hyphen (k : str) (b : bool) :
  forallb title_char k = true ->
  re_sub_runs GenToc.space_or_hyphen [hyphen] b (map space_to_hyphen k)
  = re_sub_runs GenToc.space_or_hyphen [hyphen] b k.
Proof.
  revert b. induction k as [|c k IH]; intros b H; [reflexivity|].
  simpl in H. apply andb_prop in H. destruct H as [Hc Hk].
  destruct (title_char_facts c Hc) as (_ & E2 & E3).
  cbn [map]. rewrite !runs_cons, E2.
  destruct (Spec.separator c) eqn:S.
  - rewrite (IH true Hk). reflexivity.
  - rewrite (E3 eq_refl), (IH false Hk). reflexivity.
Qed.

Lemma map_slug_chars (k : str) :
  forallb title_char k = true ->
  forallb slug_char (map space_to_hyphen k) = true.
Proof.
  induction k as [|c k IH]; [reflexivity|].
  intros H. simpl in H. apply andb_prop in H. destruct H as [Hc Hk].
  simpl. destruct (title_char_facts c Hc) as (E1 & _ & _).
  rewrite E1, (IH Hk). reflexivity.
Qed.

Lemma no_double_slug_form (s : str) (b : bool) :
  forallb slug_char s = true -> no_double_hyphen s = true ->
  b && starts_hyphen s = false ->
  slug_form b s = true.
Proof.
  revert b. induction s as [|c s IH]; intros b Hc Hd Hb; [reflexivity|].
  simpl in Hc. apply andb_prop in Hc. destruct Hc as [Hc Hs].
  cbn [slug_form]. cbn [starts_hyphen] in Hb.
  assert (Hd' : no_double_hyphen s = true).
  { cbn [no_double_hyphen] in Hd. destruct s; [reflexivity|].
    apply andb_prop in Hd. apply Hd. }
  destruct (is_hyphen c) eqn:Hh.
  - rewrite andb_true_r in Hb. rewrite Hb. simpl.
    apply IH; [exact Hs | exact Hd'|].
    cbn [no_double_hyphen] in Hd. destruct s as [|d s]; [reflexivity|].
    apply andb_prop in Hd. destruct Hd as [Hd _].
    rewrite Hh in Hd. simpl in *. destruct (is_hyphen d); [discriminate | reflexivity].
  - unfold slug_char in Hc. rewrite Hh, orb_false_r in Hc. rewrite Hc. simpl.
    apply IH; [exact Hs | exact Hd' | reflexivity].
Qed.

Lemma dropwhile_forallb (f g : ascii -> bool) (s : str) :
  forallb g s = true -> forallb g (dropwhile f s) = true.
Proof.
  induction s as [|c s IH]; [reflexivity|].
  intros H. simpl. destruct (f c); [|exact H].
  simpl in H. apply andb_prop in H. apply IH, H.
Qed.

Lemma rstrip_forallb (g : ascii -> bool) (s : str) :
  forallb g s = true -> forallb g (rstrip s) = true.
Proof.
  induction s as [|c s IH]; [reflexivity|].
  intros H. simpl in H. apply andb_prop in H. destruct H as [Hc Hs].
  simpl. specialize (IH Hs). destruct (rstrip s) as [|x r].
  - destruct (is_space c); simpl; [reflexivity | rewrite Hc; reflexivity].
  - cbn [forallb]. cbn [forallb] in IH. rewrite Hc, IH. reflexivity.
Qed.

Lemma strip_forallb (g : ascii -> bool) (s : str) :
  forallb g s = true -> forallb g (strip s) = true.
Proof.
  intros H. unfold strip, lstrip. apply rstrip_forallb, dropwhile_forallb, H.
Qed.

(** On a plain title the two computations agree as soon as the anchor has
    no two hyphens in a row. *)
Lemma header_anchor_slugify (t : str) :
  forallb plain_char t = true ->
  no_double_hyphen (RewriteLinks.header_anchor (strip t)) = true ->
  RewriteLinks.header_anchor (strip t) = GenToc.slugify t.
Proof.
  intros Hp Hd.
  destruct (header_anchor_plain (strip t) (strip_forallb _ _ Hp)) as [Ha Hk].
  unfold GenToc.slugify. rewrite remove_filter_kept.
  rewrite Ha in *.
  rewrite <- (runs_space_to_hyphen _ false Hk).
  symmetry. apply slug_form_runs.
  apply no_double_slug_form; [apply map_slug_chars, Hk | exact Hd | reflexivity].
Qed.

(** C2 fails on the code: for the title "Q & A" the rewritten link targets
    [q--a] while [slugify] gives [q-a]. *)
Lemma anchor_differs_from_slug :
  docs_fs (lit "docs/faq.md") = Readable [line "# Q & A"]
  /\ GenToc.parse_headings [line "# Q & A"] = [(1, lit "Q & A")]
  /\ RewriteLinks.rewrite_links docs_fs (lit "[see](faq.md)") (lit "docs/a.md")
     = lit "[see](#q--a)"
  /\ GenToc.slugify (lit "Q & A") = lit "q-a"
  /\ RewriteLinks.header_anchor (lit "Q & A") <> GenToc.slugify (lit "Q & A").
Proof.
  split; [reflexivity|]. split; [reflexivity|]. split; [reflexivity|].
  split; [reflexivity|]. vm_compute. discriminate.
Qed.

(** ** The report of [check_links] *)

Lemma startswith_app (p q s : str) :
  startswith (p ++ q) s = true -> startswith p s = true.
Proof.
  revert s. induction p as [|x p IH]; intros s; [reflexivity|].
  destruct s as [|y s]; simpl; [discriminate|].
  intros H. apply andb_prop in H. destruct H as [Hxy H].
  rewrite Hxy. apply IH, H.
Qed.

Lemma skipped_prefixes (link : str) :
  startswith (lit "http") link || startswith (lit "https") link
  || startswith (lit "#") link || startswith (lit "mailto:") link
  = non_rewritable link.
Proof.
  unfold non_rewritable.
  destruct (startswith (lit "http") link) eqn:E; [reflexivity|].
  destruct (startswith (lit "https") link) eqn:E'; [|reflexivity].
  apply (startswith_app (lit "http") (lit "s")) in E'. congruence.
Qed.

Lemma check_link_step (exists_ : str -> bool)
    (start_path dirpath filepath : str) (broken_links : list (str * str))
    (link : str) :
  CheckLinks.check_link exists_ start_path dirpath filepath broken_links link
  = broken_links
    ++ (if relative_file link
           && negb (exists_ (CheckLinks.target_path start_path dirpath link))
        then [(filepath, link)] else []).
Proof.
  unfold CheckLinks.check_link, relative_file. rewrite skipped_prefixes.
  destruct (non_rewritable link); cbn [negb andb].
  - symmetry. apply app_nil_r.
  - destruct (takewhile (not_in CheckLinks.is_hash) link).
    + symmetry. apply app_nil_r.
    + destruct (exists_ _); cbn [negb]; [symmetry; apply app_nil_r | reflexivity].
Qed.

Lemma check_links_of_file (exists_ : str -> bool)
    (start_path dirpath filepath : str) (links : list str)
    (broken_links : list (str * str)) :
  fold_left (CheckLinks.check_link exists_ start_path dirpath filepath)
            links broken_links
  = broken_links
    ++ map (pair filepath)
         (filter
            (fun link =>
               relative_file link
               && negb (exists_ (CheckLinks.target_path start_path dirpath link)))
            links).
Proof.
  revert broken_links. induction links as [|l ls IH]; intros acc.
  - symmetry. apply app_nil_r.
  - cbn [fold_left filter]. rewrite IH, check_link_step, <- app_assoc.
    destruct (relative_file l && _); reflexivity.
Qed.

Lemma check_file_step (exists_ : str -> bool) (start_path dirpath : str)
    (broken_links : list (str * str)) (file : str * CheckLinks.read_result) :
  CheckLinks.check_file exists_ start_path dirpath broken_links file
  = broken_links
    ++ flat_map (broken_in exists_ start_path dirpath) (scanned dirpath file).
Proof.
  destruct file as [filename read].
  unfold CheckLinks.check_file, scanned.
  destruct (endswith (lit ".md") filename); cbn [negb andb].
  - destruct (mem_str filename CheckLinks.ignored_files); cbn [negb].
    + destruct read; symmetry; apply app_nil_r.
    + destruct read as [content|]; [|symmetry; apply app_nil_r].
      rewrite check_links_of_file. cbn [flat_map]. rewrite app_nil_r.
      reflexivity.
  - destruct read; symmetry; apply app_nil_r.
Qed.

Lemma check_files_of_dir (exists_ : str -> bool) (start_path dirpath : str)
    (files : list (str * CheckLinks.read_result))
    (broken_links : list (str * str)) :
  fold_left (CheckLinks.check_file exists_ start_path dirpath) files
            broken_links
  = broken_links
    ++ flat_map
         (fun file =>
            flat_map (broken_in exists_ start_path dirpath)
                     (scanned dirpath file))
         files.
Proof.
  revert broken_links. induction files as [|f fl IH]; intros acc.
  - symmetry. apply app_nil_r.
  - cbn [fold_left flat_map]. rewrite IH, check_file_step, <- app_assoc.
    reflexivity.
Qed.

Lemma check_links_from (exists_ : str -> bool) (start_path : str)
    (walk : list CheckLinks.walk_entry) (broken_links : list (str * str)) :
  fold_left
    (fun broken_links (entry : CheckLinks.walk_entry) =>
       let (dirpath, filenames) := entry in
       fold_left (CheckLinks.check_file exists_ start_path dirpath) filenames
                 broken_links)
    walk broken_links
  = broken_links
    ++ flat_map
         (fun entry : CheckLinks.walk_entry =>
            flat_map
              (fun file =>
                 flat_map (broken_in exists_ start_path (fst entry))
                          (scanned (fst entry) file))
              (snd entry))
         walk.
Proof.
  revert broken_links. induction walk as [|[dirpath files] w IH]; intros acc.
  - symmetry. apply app_nil_r.
  - cbn [fold_left flat_map fst snd].
    rewrite IH, check_files_of_dir, <- app_assoc. reflexivity.
Qed.

Lemma in_broken_in (exists_ : str -> bool) (start_path dirpath : str)
    (doc entry : str * str) :
  In entry (broken_in exists_ start_path dirpath doc) <->
  fst entry = fst doc
  /\ In (snd entry) (CheckLinks.findall 0 (snd doc))
  /\ relative_file (snd entry) = true
  /\ exists_ (CheckLinks.target_path start_path dirpath (snd entry)) = false.
Proof.
  unfold broken_in. rewrite in_map_iff. split.
  - intros (l & <- & Hl). apply filter_In in Hl. destruct Hl as [Hin Hb].
    apply andb_prop in Hb. destruct Hb as [Hr He].
    apply negb_true_iff in He. cbn [fst snd]. auto.
  - intros (Hs & Hin & Hr & He). exists (snd entry). split.
    + destruct entry as [a b]. cbn [fst snd] in *. subst a. reflexivity.
    + apply filter_In. split; [exact Hin|]. rewrite Hr, He. reflexivity.
Qed.

Lemma in_report (exists_ : str -> bool) (walk : list CheckLinks.walk_entry)
    (start_path source link : str) :
  In (source, link) (CheckLinks.check_links exists_ walk start_path) <->
  exists dirpath files file content,
    In (dirpath, files) walk /\ In file files
    /\ In (source, content) (scanned dirpath file)
    /\ In link (CheckLinks.findall 0 content)
    /\ relative_file link = true
    /\ exists_ (CheckLinks.target_path start_path dirpath link) = false.
Proof.
  unfold CheckLinks.check_links. rewrite check_links_from. cbn [app].
  rewrite in_flat_map. split.
  - intros ([dirpath files] & Hw & H). cbn [fst snd] in H.
    apply in_flat_map in H. destruct H as (file & Hf & H).
    apply in_flat_map in H. destruct H as ([src content] & Hs & H).
    apply in_broken_in in H. cbn [fst snd] in H.
    destruct H as (-> & Hl & Hr & He).
    exists dirpath, files, file, content. auto 10.
  - intros (dirpath & files & file & content & Hw & Hf & Hs & Hl & Hr & He).
    exists (dirpath, files). split; [exact Hw|]. cbn [fst snd].
    apply in_flat_map. exists file. split; [exact Hf|].
    apply in_flat_map. exists (source, content). split; [exact Hs|].
    apply in_broken_in. cbn [fst snd]. auto.
Qed.

(** C5 — every relative-file link of every scanned document is resolved
    against the directory of the document, or against the base directory
    with the leading separators stripped when its path begins with one;
    the report holds exactly the pairs (path of the document, target as
    written) of the links whose normalized resolved path does not exist,
    all of them, in the order of the scan, and is empty when every target
    exists. *)
Theorem check_links_report (exists_ : str -> bool)
    (walk : list CheckLinks.walk_entry) (start_path : str) :
  let resolved (dirpath link : str) :=
    let path := takewhile (not_in CheckLinks.is_hash) link in
    os_path_normpath
      (if startswith [slash] path
       then os_path_join start_path (lstrip_slash path)
       else os_path_join dirpath path) in
  let report := CheckLinks.check_links exists_ walk start_path in
  report
  = flat_map
      (fun entry : CheckLinks.walk_entry =>
         flat_map
           (fun file =>
              flat_map
                (fun doc : str * str =>
                   map (pair (fst doc))
                     (filter
                        (fun link =>
                           relative_file link
                           && negb (exists_ (resolved (fst entry) link)))
                        (CheckLinks.findall 0 (snd doc))))
                (scanned (fst entry) file))
           (snd entry))
      walk
  /\ (forall source link,
        In (source, link) report <->
        exists dirpath files file content,
          In (dirpath, files) walk /\ In file files
          /\ In (source, content) (scanned dirpath file)
          /\ In link (CheckLinks.findall 0 content)
          /\ relative_file link = true
          /\ exists_ (resolved dirpath link) = false)
  /\ ((forall dirpath files file source content link,
         In (dirpath, files) walk -> In file files ->
         In (source, content) (scanned dirpath file) ->
         In link (CheckLinks.findall 0 content) ->
         relative_file link = true ->
         exists_ (resolved dirpath link) = true) ->
      report = []).
Proof.
  intros resolved report. split; [|split].
  - unfold report, CheckLinks.check_links. rewrite check_links_from.
    reflexivity.
  - intros source link. apply in_report.
  - intros Hall. destruct report as [|[source link] r] eqn:E; [reflexivity|].
    assert (Hin : In (source, link)
                     (CheckLinks.check_links exists_ walk start_path)).
    { fold report. rewrite E. left. reflexivity. }
    apply in_report in Hin.
    destruct Hin as (dirpath & files & file & content
                     & Hw & Hf & Hs & Hl & Hr & He).
    specialize (Hall dirpath files file source content link Hw Hf Hs Hl Hr).
    unfold resolved in Hall. unfold CheckLinks.target_path in He. congruence.
Qed.

Lemma check_links_report_witness :
  CheckLinks.check_links docs_exists docs_walk (lit ".")
  = [(lit "docs/a.md", lit "bad.md#s")]
  /\ CheckLinks.check_links (fun _ => true) docs_walk (lit ".") = [].
Proof.
  split.
  - destruct (check_links_report docs_exists docs_walk (lit ".")) as [H _].
    exact H.
  - destruct (check_links_report (fun _ => true) docs_walk (lit "."))
      as (_ & _ & H).
    apply H. reflexivity.
Defined.

(** ** Sample runs *)

Example heading_pattern_samples :
  map GenToc.HEADING_PATTERN_match
      [line "# Title"; line "##  Sub  title  "; line "#Title";
       line "####### Seven"; line "#   "; line "# "; lit "text"]
  = [Some (1, lit "Title"); Some (2, lit "Sub  title"); None; None;
     Some (1, lit " "); None; None].
Proof. reflexivity. Qed.

Example rewrite_first_h1 :
  RewriteLinks.rewrite_links docs_fs (lit "[Link](02-security.md)")
    (lit "docs/a.md")
  = lit "[Link](#security-architecture)".
Proof. reflexivity. Qed.

Example rewrite_fallback :
  RewriteLinks.rewrite_links docs_fs (lit "[Link](03-deployment.md)")
    (lit "docs/a.md")
  = lit "[Link](#deployment)".
Proof. reflexivity. Qed.

Example toc_two_documents :
  GenToc.main
    (fun p =>
       if eqb_str p (lit "A.md") then Readable [line "# Intro"]
       else if eqb_str p (lit "B.md")
       then Readable [line "# Details"; line "#### Deep"]
       else Absent)
    [lit "A.md"; lit "B.md"]
  = GenToc.Exit 0
      (Some
         (join_str [newline]
            [lit "# Table of Contents"; []; lit "- [Intro](#intro)";
             lit "- [Details](#details)"; GenToc.page_break]
          ++ [newline])).
Proof. reflexivity. Qed.

Example normpath_samples :
  map os_path_normpath
      [lit "docs/./a/../b.md"; lit "/a//b/"; lit "//a"; lit "a/../.."; lit ""]
  = [lit "docs/b.md"; lit "/a/b"; lit "//a"; lit ".."; lit "."].
Proof. reflexivity. Qed.

(** * Further properties *)

(** ** Diagram conversion *)

Lemma startswith_split (p s : str) :
  startswith p s = true -> s = p ++ skipn (length p) s.
Proof.
  revert s. induction p as [|x p IH]; intros s H; [reflexivity|].
  destruct s as [|y s]; [discriminate|].
  cbn [startswith] in H. apply andb_prop in H. destruct H as [Hxy H].
  apply Ascii.eqb_eq in Hxy. subst y. cbn [length skipn app].
  f_equal. apply IH, H.
Qed.

Lemma lazy_block_split (s d rest : str) :
  ConvertMermaid.lazy_block s = Some (d, rest) ->
  s = d ++ ConvertMermaid.fence_close ++ rest.
Proof.
  revert d. induction s as [|c t IH]; intros d; [discriminate|].
  cbn [ConvertMermaid.lazy_block].
  destruct (startswith ConvertMermaid.fence_close (c :: t)) eqn:E.
  - intros H. injection H as <- <-.
    apply (startswith_split ConvertMermaid.fence_close), E.
  - destruct (ConvertMermaid.lazy_block t) as [[d' r']|]; [|discriminate].
    intros H. injection H as <- <-. cbn [app]. f_equal. apply IH. reflexivity.
Qed.

(** A match is a prefix of the text it is found in. *)
Lemma block_match_split (s d rest : str) :
  ConvertMermaid.block_match s = Some (d, rest) ->
  s = ConvertMermaid.group0 d ++ rest.
Proof.
  unfold ConvertMermaid.block_match.
  destruct (startswith ConvertMermaid.fence_open s) eqn:E; [|discriminate].
  intros H. apply lazy_block_split in H.
  rewrite (startswith_split _ _ E).
  change (length ConvertMermaid.fence_open) with 11. rewrite H.
  unfold ConvertMermaid.group0. rewrite <- !app_assoc. reflexivity.
Qed.

Lemma mermaid_pieces_source (skip : nat) (content : str) :
  flat_map mermaid_source (mermaid_pieces skip content) = skipn skip content.
Proof.
  revert skip. induction content as [|c t IH]; intros skip.
  - destruct skip; reflexivity.
  - cbn [mermaid_pieces]. destruct skip as [|k]; [|apply IH].
    destruct (ConvertMermaid.block_match (c :: t)) as [[d rest]|] eqn:E.
    + apply block_match_split in E. cbn [flat_map mermaid_source skipn].
      rewrite IH.
      assert (Ht : t = tl (ConvertMermaid.group0 d) ++ rest).
      { change (ConvertMermaid.group0 d)
          with (ConvertMermaid.backtick :: tl (ConvertMermaid.group0 d)) in E.
        cbn [app] in E. injection E as _ E. exact E. }
      rewrite E. rewrite Ht at 1 2.
      rewrite length_app, Nat.add_sub, skipn_app, skipn_all, Nat.sub_diag.
      reflexivity.
    + cbn [flat_map mermaid_source skipn app]. rewrite IH. reflexivity.
Qed.

Lemma state_eta (st : ConvertMermaid.state) :
  st = {| ConvertMermaid.diagram_count := ConvertMermaid.diagram_count st;
          ConvertMermaid.written := ConvertMermaid.written st |}.
Proof. destruct st. reflexivity. Qed.

(** The run of the substitution when no call raises. *)
Lemma sub_blocks_pieces (output_dir prefix : str)
    (mmdc : str -> str -> ConvertMermaid.conversion) :
  never_crashes mmdc ->
  forall (content : str) (skip : nat) (st : ConvertMermaid.state),
    ConvertMermaid.sub_blocks output_dir prefix mmdc skip st content
    = ({| ConvertMermaid.diagram_count :=
            ConvertMermaid.diagram_count st
            + count_blocks (mermaid_pieces skip content);
          ConvertMermaid.written :=
            ConvertMermaid.written st
            ++ mermaid_files output_dir prefix
                 (ConvertMermaid.diagram_count st)
                 (mermaid_pieces skip content) |},
       Some (mermaid_output output_dir prefix mmdc
               (ConvertMermaid.diagram_count st)
               (mermaid_pieces skip content))).
Proof.
  intros Hnc. induction content as [|c t IH]; intros skip st.
  - cbn. rewrite Nat.add_0_r, app_nil_r, <- state_eta. reflexivity.
  - cbn [ConvertMermaid.sub_blocks mermaid_pieces].
    destruct skip as [|k]; [|apply IH].
    destruct (ConvertMermaid.block_match (c :: t)) as [[d rest]|].
    + unfold ConvertMermaid.replace_mermaid.
      cbn [mermaid_output mermaid_files].
      unfold count_blocks. cbn [filter is_block length].
      fold (count_blocks (mermaid_pieces (length t - length rest) t)).
      pose proof (Hnc (os_path_join output_dir
                         (ConvertMermaid.diagram_name prefix
                            (S (ConvertMermaid.diagram_count st)) ".mmd")) d)
        as Hd.
      destruct (mmdc _ d); [| |congruence];
        rewrite IH; cbn [ConvertMermaid.diagram_count ConvertMermaid.written
                         option_map];
        rewrite <- app_assoc, Nat.add_succ_r; reflexivity.
    + rewrite IH. cbn [option_map mermaid_output mermaid_files].
      unfold count_blocks. cbn [filter is_block]. reflexivity.
Qed.





Lemma mermaid_output_app (output_dir prefix : str)
    (mmdc : str -> str -> ConvertMermaid.conversion) (n : nat)
    (a b : list mermaid_piece) :
  mermaid_output output_dir prefix mmdc n (a ++ b)
  = mermaid_output output_dir prefix mmdc n a
    ++ mermaid_output output_dir prefix mmdc (n + count_blocks a) b.
Proof.
  revert n. induction a as [|[c|d] a IH]; intros n.
  - cbn. rewrite Nat.add_0_r. reflexivity.
  - cbn [app mermaid_output]. rewrite IH. reflexivity.
  - cbn [app mermaid_output]. rewrite IH, <- app_assoc.
    unfold count_blocks. cbn [filter is_block length].
    rewrite Nat.add_succ_r. reflexivity.
Qed.

Lemma convert_no_crash (output_dir prefix : str)
    (mmdc : str -> str -> ConvertMermaid.conversion) (lines : list str) :
  never_crashes mmdc ->
  ConvertMermaid.convert_mermaid_diagrams (Readable lines) output_dir prefix
    mmdc
  = {| ConvertMermaid.mmd_files :=
         mermaid_files output_dir prefix 0 (mermaid_pieces 0 (concat lines));
       ConvertMermaid.returned :=
         Some (mermaid_output output_dir prefix mmdc 0
                 (mermaid_pieces 0 (concat lines)),
               count_blocks (mermaid_pieces 0 (concat lines))) |}.
Proof.
  intros Hnc. unfold ConvertMermaid.convert_mermaid_diagrams.
  rewrite (sub_blocks_pieces output_dir prefix mmdc Hnc). reflexivity.
Qed.

(** X2 — when no conversion raises, the n-th diagram block of the input
    stands in the output as [![Diagram n](dir/prefix_diagram_n.png)] if its
    conversion succeeded and byte for byte as in the input if it failed;
    blocks whose conversion failed are counted in the numbering. *)
Theorem diagram_numbered_by_position (output_dir prefix : str)
    (mmdc : str -> str -> ConvertMermaid.conversion) (lines : list str)
    (pre post : list mermaid_piece) (d : str) :
  never_crashes mmdc ->
  mermaid_pieces 0 (concat lines) = pre ++ Block d :: post ->
  let n := S (count_blocks pre) in
  exists text,
    ConvertMermaid.returned
      (ConvertMermaid.convert_mermaid_diagrams (Readable lines) output_dir
         prefix mmdc)
    = Some (text, count_blocks pre + S (count_blocks post))
    /\ concat lines
       = flat_map mermaid_source pre ++ ConvertMermaid.group0 d
         ++ flat_map mermaid_source post
    /\ text
       = mermaid_output output_dir prefix mmdc 0 pre
         ++ match
              mmdc (os_path_join output_dir
                      (prefix ++ lit "_diagram_"
                       ++ ConvertMermaid.str_of_nat n ++ lit ".mmd")) d
            with
            | ConvertMermaid.Converted =>
                lit "![Diagram " ++ ConvertMermaid.str_of_nat n ++ lit "]("
                ++ os_path_join output_dir
                     (prefix ++ lit "_diagram_"
                      ++ ConvertMermaid.str_of_nat n ++ lit ".png")
                ++ lit ")"
            | _ => ConvertMermaid.group0 d
            end
         ++ mermaid_output output_dir prefix mmdc n post.
Proof.
  intros Hnc Hps n. rewrite (convert_no_crash _ _ _ _ Hnc), Hps.
  cbn [ConvertMermaid.returned].
  exists (mermaid_output output_dir prefix mmdc 0 (pre ++ Block d :: post)).
  split; [|split].
  - f_equal. f_equal. unfold count_blocks.
    rewrite filter_app, length_app. reflexivity.
  - pose proof (mermaid_pieces_source 0 (concat lines)) as H.
    rewrite Hps, flat_map_app in H. symmetry. exact H.
  - rewrite mermaid_output_app. cbn [mermaid_output Nat.add]. reflexivity.
Qed.

Lemma all_failed_output (output_dir prefix : str)
    (mmdc : str -> str -> ConvertMermaid.conversion) (n : nat)
    (ps : list mermaid_piece) :
  (forall file text, mmdc file text = ConvertMermaid.Failed) ->
  mermaid_output output_dir prefix mmdc n ps = flat_map mermaid_source ps.
Proof.
  intros Hf. revert n. induction ps as [|[c|d] ps IH]; intros n.
  - reflexivity.
  - cbn [mermaid_output flat_map mermaid_source app]. rewrite IH. reflexivity.
  - cbn [mermaid_output flat_map mermaid_source]. rewrite Hf, IH. reflexivity.
Qed.

(** X3 — when every conversion fails with [CalledProcessError] the text
    written to the output is the input text unchanged, while the returned
    count is still the number of diagram blocks. *)
Theorem failed_conversions_keep_text (output_dir prefix : str)
    (mmdc : str -> str -> ConvertMermaid.conversion) (lines : list str) :
  (forall file text, mmdc file text = ConvertMermaid.Failed) ->
  ConvertMermaid.returned
    (ConvertMermaid.convert_mermaid_diagrams (Readable lines) output_dir
       prefix mmdc)
  = Some (concat lines, count_blocks (mermaid_pieces 0 (concat lines))).
Proof.
  intros Hf.
  rewrite convert_no_crash by (intros f t; rewrite Hf; discriminate).
  cbn [ConvertMermaid.returned].
  rewrite (all_failed_output _ _ _ _ _ Hf), mermaid_pieces_source.
  reflexivity.
Qed.

Lemma second_fails_never_crashes : never_crashes second_fails.
Proof.
  intros file text. unfold second_fails.
  destruct (endswith (lit "_2.mmd") file); discriminate.
Qed.

Lemma diagram_numbered_by_position_witness :
  exists text,
    ConvertMermaid.returned
      (ConvertMermaid.convert_mermaid_diagrams (Readable [two_diagrams])
         (lit "out") (lit "p") second_fails)
    = Some (text, 3)
    /\ text
       = lit "A![Diagram 1](out/p_diagram_1.png)B"
         ++ ConvertMermaid.group0 (lit "pie")
         ++ lit "C![Diagram 3](out/p_diagram_3.png)".
Proof.
  destruct (diagram_numbered_by_position (lit "out") (lit "p") second_fails
              [two_diagrams]
              [Text "A"%char; Block (lit "graph TD"); Text "B"%char]
              [Text "C"%char; Block (lit "flowchart LR")] (lit "pie")
              second_fails_never_crashes eq_refl)
    as (text & Hr & _ & Ht).
  exists text. split; [exact Hr | exact Ht].
Defined.

Lemma failed_conversions_keep_text_witness :
  ConvertMermaid.returned
    (ConvertMermaid.convert_mermaid_diagrams (Readable [two_diagrams])
       (lit "out") (lit "p") (fun _ _ => ConvertMermaid.Failed))
  = Some (two_diagrams, 3).
Proof.
  apply (failed_conversions_keep_text (lit "out") (lit "p")
           (fun _ _ => ConvertMermaid.Failed) [two_diagrams]).
  reflexivity.
Defined.

Lemma no_backtick_no_match (c : ascii) (t : str) :
  ConvertMermaid.is_backtick c = false ->
  ConvertMermaid.block_match (c :: t) = None.
Proof.
  intros Hc. unfold ConvertMermaid.block_match.
  destruct (startswith ConvertMermaid.fence_open (c :: t)) eqn:E;
    [|reflexivity].
  cbn [ConvertMermaid.fence_open app startswith] in E.
  apply andb_prop in E. destruct E as [E _]. apply Ascii.eqb_eq in E.
  subst c. discriminate.
Qed.

Lemma sub_blocks_no_backtick (output_dir prefix : str)
    (mmdc : str -> str -> ConvertMermaid.conversion) (content : str)
    (st : ConvertMermaid.state) :
  existsb ConvertMermaid.is_backtick content = false ->
  ConvertMermaid.sub_blocks output_dir prefix mmdc 0 st content
  = (st, Some content).
Proof.
  induction content as [|c t IH]; intros H; [reflexivity|].
  cbn [existsb] in H. apply orb_false_elim in H. destruct H as [Hc Ht].
  cbn [ConvertMermaid.sub_blocks].
  rewrite (no_backtick_no_match c t Hc), (IH Ht). reflexivity.
Qed.

(** X4 — an input without any backtick is written out unchanged: the
    converter is never called, no [.mmd] file is written and the returned
    count is 0. *)
Theorem no_backtick_nothing_converted (output_dir prefix : str)
    (mmdc : str -> str -> ConvertMermaid.conversion) (lines : list str) :
  existsb ConvertMermaid.is_backtick (concat lines) = false ->
  ConvertMermaid.convert_mermaid_diagrams (Readable lines) output_dir prefix
    mmdc
  = {| ConvertMermaid.mmd_files := [];
       ConvertMermaid.returned := Some (concat lines, 0) |}.
Proof.
  intros H. unfold ConvertMermaid.convert_mermaid_diagrams.
  rewrite (sub_blocks_no_backtick _ _ _ _ _ H). reflexivity.
Qed.

Lemma no_backtick_nothing_converted_witness :
  ConvertMermaid.convert_mermaid_diagrams
    (Readable [line "# Title"; line "Text."]) (lit "out") (lit "p")
    (fun _ _ => ConvertMermaid.Crashed)
  = {| ConvertMermaid.mmd_files := [];
       ConvertMermaid.returned :=
         Some (line "# Title" ++ line "Text.", 0) |}.
Proof.
  apply (no_backtick_nothing_converted (lit "out") (lit "p")
           (fun _ _ => ConvertMermaid.Crashed)
           [line "# Title"; line "Text."]).
  reflexivity.
Defined.

Lemma lazy_block_found (d rest : str) :
  existsb ConvertMermaid.is_backtick d = false ->
  ConvertMermaid.lazy_block (d ++ ConvertMermaid.fence_close ++ rest)
  = Some (d, rest).
Proof.
  induction d as [|c d IH]; intros H; [reflexivity|].
  cbn [existsb] in H. apply orb_false_elim in H. destruct H as [Hc Hd].
  cbn [app ConvertMermaid.lazy_block].
  assert (E : startswith ConvertMermaid.fence_close
                (c :: d ++ ConvertMermaid.fence_close ++ rest) = false).
  { cbn [ConvertMermaid.fence_close startswith].
    destruct (Ascii.eqb newline c); [|reflexivity]. cbn [andb].
    destruct d as [|x d'].
    - reflexivity.
    - cbn [app startswith]. cbn [existsb] in Hd.
      apply orb_false_elim in Hd. destruct Hd as [Hx _].
      destruct (Ascii.eqb ConvertMermaid.backtick x) eqn:Ex; [|reflexivity].
      apply Ascii.eqb_eq in Ex. subst x. discriminate. }
  rewrite E, (IH Hd). reflexivity.
Qed.

(** X5 — a fenced block [```mermaid], newline, body, newline, [```] whose
    body has no backtick is matched whole at its start, with the body as
    the diagram text, whatever follows it; and whatever is matched is such
    a fenced block standing at the start. *)
Theorem mermaid_block_recognised (d rest : str) :
  existsb ConvertMermaid.is_backtick d = false ->
  ConvertMermaid.block_match (ConvertMermaid.group0 d ++ rest) = Some (d, rest)
  /\ (forall s d' rest',
        ConvertMermaid.block_match s = Some (d', rest') ->
        s = ConvertMermaid.group0 d' ++ rest').
Proof.
  intros H. split.
  - unfold ConvertMermaid.block_match, ConvertMermaid.group0.
    rewrite <- !app_assoc.
    change (startswith ConvertMermaid.fence_open
              (ConvertMermaid.fence_open
               ++ d ++ ConvertMermaid.fence_close ++ rest)) with true.
    cbn iota.
    change (skipn 11 (ConvertMermaid.fence_open
                      ++ d ++ ConvertMermaid.fence_close ++ rest))
      with (d ++ ConvertMermaid.fence_close ++ rest).
    apply lazy_block_found, H.
  - intros s d' rest'. apply block_match_split.
Qed.

Lemma mermaid_block_recognised_witness :
  ConvertMermaid.block_match
    (ConvertMermaid.group0 (lit "graph TD") ++ lit " tail")
  = Some (lit "graph TD", lit " tail").
Proof.
  apply (mermaid_block_recognised (lit "graph TD") (lit " tail")).
  reflexivity.
Defined.



(** ** Headings *)

Lemma space_not_hash (c : ascii) : is_space c = true -> is_char 35 c = false.
Proof. each_char c. Qed.

Lemma lazy_title_sound (s title : str) :
  GenToc.lazy_title s = Some title ->
  exists post,
    s = title ++ post /\ forallb is_space post = true
    /\ title <> [] /\ no_newline title = true.
Proof.
  revert title. induction s as [|c t IH]; intros title; [discriminate|].
  cbn [GenToc.lazy_title].
  destruct (is_char 10 c) eqn:Hc; [discriminate|].
  destruct (forallb is_space t) eqn:Ht.
  - intros H. injection H as <-. exists t.
    unfold no_newline. cbn [forallb]. rewrite Hc.
    repeat split; [exact Ht | discriminate].
  - destruct (GenToc.lazy_title t) as [title'|]; [|discriminate].
    intros H. injection H as <-.
    destruct (IH title' eq_refl) as (post & -> & Hp & _ & Hn).
    exists post. unfold no_newline in *. cbn [forallb]. rewrite Hc, Hn.
    repeat split; [exact Hp | discriminate].
Qed.

Lemma spaces_title_sound (s title : str) :
  GenToc.spaces_title s = Some title ->
  exists ws post,
    s = ws ++ title ++ post /\ ws <> [] /\ forallb is_space ws = true
    /\ forallb is_space post = true /\ title <> [] /\ no_newline title = true.
Proof.
  revert title. induction s as [|c t IH]; intros title; [discriminate|].
  cbn [GenToc.spaces_title]. destruct (is_space c) eqn:Hc; [|discriminate].
  destruct (GenToc.spaces_title t) as [title'|] eqn:E.
  - intros H. injection H as <-.
    destruct (IH title' eq_refl) as (ws & post & -> & _ & Hw & Hp & Hne & Hn).
    exists (c :: ws), post. cbn [forallb app]. rewrite Hc, Hw.
    repeat split; try assumption. discriminate.
  - intros H. destruct (lazy_title_sound _ _ H) as (post & -> & Hp & Hne & Hn).
    exists [c], post. cbn [forallb app]. rewrite Hc.
    repeat split; try assumption. discriminate.
Qed.

Lemma hashes_title_sound (budget : nat) (s : str) (n : nat) (title : str) :
  GenToc.hashes_title budget s = Some (n, title) ->
  n <= budget
  /\ exists ws post,
       s = repeat hash n ++ ws ++ title ++ post /\ ws <> []
       /\ forallb is_space ws = true /\ forallb is_space post = true
       /\ title <> [] /\ no_newline title = true.
Proof.
  assert (Hstop : forall b s n title,
             option_map (pair 0) (GenToc.spaces_title s) = Some (n, title) ->
             n <= b
             /\ exists ws post,
                  s = repeat hash n ++ ws ++ title ++ post /\ ws <> []
                  /\ forallb is_space ws = true
                  /\ forallb is_space post = true
                  /\ title <> [] /\ no_newline title = true).
  { intros b s0 n0 t0 H.
    destruct (GenToc.spaces_title s0) as [t'|] eqn:E; [|discriminate].
    injection H as <- <-. split; [lia|]. apply spaces_title_sound, E. }
  revert s n title. induction budget as [|b IH]; intros s n title.
  - destruct s; apply Hstop.
  - destruct s as [|c t]; [apply Hstop|].
    cbn [GenToc.hashes_title]. destruct (is_char 35 c) eqn:Hc; [|apply Hstop].
    destruct (GenToc.hashes_title b t) as [[n' title']|] eqn:E; [|apply Hstop].
    intros H. injection H as <- <-.
    destruct (IH t n' title' E) as (Hn & ws & post & -> & Hrest).
    split; [lia|]. exists ws, post.
    apply is_char_eq in Hc. subst c. split; [reflexivity | exact Hrest].
Qed.

Lemma heading_pattern_split (line : str) (level : nat) (title : str) :
  GenToc.HEADING_PATTERN_match line = Some (level, title) ->
  1 <= level <= 6
  /\ exists ws post,
       line = repeat hash level ++ ws ++ title ++ post /\ ws <> []
       /\ forallb is_space ws = true /\ forallb is_space post = true
       /\ title <> [] /\ no_newline title = true.
Proof.
  unfold GenToc.HEADING_PATTERN_match. destruct line as [|c t]; [discriminate|].
  destruct (is_char 35 c) eqn:Hc; [|discriminate].
  destruct (GenToc.hashes_title 5 t) as [[n title']|] eqn:E; [|discriminate].
  intros H. injection H as <- <-.
  destruct (hashes_title_sound _ _ _ _ E) as (Hn & ws & post & -> & Hrest).
  split; [lia|]. exists ws, post.
  apply is_char_eq in Hc. subst c. split; [reflexivity | exact Hrest].
Qed.

(** X7 — a line that [HEADING_PATTERN] matches starts with 1 to 6 hashes,
    as many as the level, followed by white space, the title and nothing
    but white space after it; the title is not empty and has no newline. *)
Theorem heading_match_sound (line : str) (level : nat) (title : str) :
  GenToc.HEADING_PATTERN_match line = Some (level, title) ->
  1 <= level <= 6
  /\ exists ws post,
       line = repeat hash level ++ ws ++ title ++ post /\ ws <> []
       /\ forallb is_space ws = true /\ forallb is_space post = true
       /\ title <> [] /\ no_newline title = true.
Proof. apply heading_pattern_split. Qed.

Lemma heading_match_sound_witness :
  1 <= 2 <= 6
  /\ exists ws post,
       line "##  Sub  title  "
       = repeat hash 2 ++ ws ++ lit "Sub  title" ++ post /\ ws <> []
       /\ forallb is_space ws = true /\ forallb is_space post = true
       /\ lit "Sub  title" <> [] /\ no_newline (lit "Sub  title") = true.
Proof.
  apply (heading_match_sound (line "##  Sub  title  ") 2 (lit "Sub  title")).
  reflexivity.
Defined.

Lemma forallb_app_false (f : ascii -> bool) (x : ascii) (l post : str) :
  In x l -> f x = false -> forallb f (l ++ post) = false.
Proof.
  intros Hin Hx. destruct (forallb f (l ++ post)) eqn:E; [|reflexivity].
  rewrite forallb_forall in E. rewrite <- Hx. symmetry. apply E.
  apply in_or_app. left. exact Hin.
Qed.

Lemma last_in (l : str) (d : ascii) : l <> [] -> In (last l d) l.
Proof.
  induction l as [|a l IH]; [congruence|]. intros _.
  destruct l as [|b l]; [left; reflexivity|].
  right. apply IH. discriminate.
Qed.

Lemma lazy_title_complete (title post : str) :
  title <> [] -> no_newline title = true ->
  is_space (last title space) = false -> forallb is_space post = true ->
  GenToc.lazy_title (title ++ post) = Some title.
Proof.
  intros Hne Hn Hl Hp. induction title as [|a t IH]; [congruence|].
  unfold no_newline in Hn. cbn [forallb] in Hn.
  apply andb_prop in Hn. destruct Hn as [Ha Ht].
  apply negb_true_iff in Ha.
  cbn [app GenToc.lazy_title]. rewrite Ha.
  destruct t as [|b t].
  - cbn [app]. rewrite Hp. reflexivity.
  - rewrite (forallb_app_false is_space (last (b :: t) space) (b :: t) post);
      [|apply last_in; discriminate | exact Hl].
    rewrite IH; [reflexivity | discriminate | exact Ht | exact Hl].
Qed.

Lemma spaces_title_complete (ws rest title : str) :
  ws <> [] -> forallb is_space ws = true ->
  is_space (hd space rest) = false ->
  GenToc.lazy_title rest = Some title ->
  GenToc.spaces_title (ws ++ rest) = Some title.
Proof.
  intros Hne Hw Hh Hl. induction ws as [|c ws IH]; [congruence|].
  cbn [forallb] in Hw. apply andb_prop in Hw. destruct Hw as [Hc Hw].
  cbn [app GenToc.spaces_title]. rewrite Hc.
  destruct ws as [|c' ws].
  - cbn [app]. destruct rest as [|a r]; [discriminate|].
    cbn [hd] in Hh. cbn [GenToc.spaces_title]. rewrite Hh. exact Hl.
  - rewrite IH; [reflexivity | discriminate | exact Hw].
Qed.

Lemma hashes_title_complete (budget n : nat) (c : ascii) (r title : str) :
  n <= budget -> is_space c = true ->
  GenToc.spaces_title (c :: r) = Some title ->
  GenToc.hashes_title budget (repeat hash n ++ c :: r) = Some (n, title).
Proof.
  intros Hn Hc Hs. revert budget Hn. induction n as [|n IH]; intros budget Hn.
  - cbn [repeat app]. destruct budget as [|b].
    + cbn [GenToc.hashes_title]. rewrite Hs. reflexivity.
    + cbn [GenToc.hashes_title]. rewrite (space_not_hash c Hc), Hs.
      reflexivity.
  - destruct budget as [|b]; [lia|].
    cbn [repeat app GenToc.hashes_title].
    change (is_char 35 hash) with true. cbn iota.
    rewrite IH by lia. reflexivity.
Qed.

Lemma rstrip_last (s : str) :
  s <> [] -> is_space (last s space) = false -> rstrip s = s.
Proof.
  induction s as [|c t IH]; [congruence|]. intros _ Hl.
  cbn [rstrip]. destruct t as [|b t].
  - cbn in Hl |- *. rewrite Hl. reflexivity.
  - rewrite IH; [reflexivity | discriminate | exact Hl].
Qed.

Lemma strip_clean (s : str) :
  s <> [] -> is_space (hd space s) = false ->
  is_space (last s space) = false -> strip s = s.
Proof.
  intros Hne Hh Hl. unfold strip, lstrip.
  destruct s as [|c t]; [congruence|]. cbn [hd] in Hh.
  cbn [dropwhile]. rewrite Hh. apply rstrip_last; [discriminate | exact Hl].
Qed.

(** X8 — a line made of 1 to 6 hashes, white space, a title that neither
    starts nor ends with white space and has no newline, and trailing white
    space is a heading of that level with exactly that title. *)
Theorem heading_recognised (level : nat) (ws title post : str) :
  1 <= level <= 6 ->
  ws <> [] -> forallb is_space ws = true ->
  title <> [] -> no_newline title = true ->
  is_space (hd space title) = false ->
  is_space (last title space) = false ->
  forallb is_space post = true ->
  GenToc.HEADING_PATTERN_match (repeat hash level ++ ws ++ title ++ post)
  = Some (level, title)
  /\ GenToc.parse_headings [repeat hash level ++ ws ++ title ++ post]
     = [(level, title)].
Proof.
  intros Hlv Hne Hw Hte Hn Hh Hl Hp.
  assert (Hs : GenToc.spaces_title (ws ++ title ++ post) = Some title).
  { apply spaces_title_complete; try assumption.
    - destruct title; [congruence | exact Hh].
    - apply lazy_title_complete; assumption. }
  assert (Hm : GenToc.HEADING_PATTERN_match
                 (repeat hash level ++ ws ++ title ++ post)
               = Some (level, title)).
  { destruct level as [|n]; [lia|].
    cbn [repeat app]. unfold GenToc.HEADING_PATTERN_match.
    change (is_char 35 hash) with true. cbn iota.
    destruct ws as [|c ws']; [congruence|].
    cbn [forallb] in Hw. apply andb_prop in Hw. destruct Hw as [Hc _].
    cbn [app] in Hs |- *.
    rewrite (hashes_title_complete 5 n c _ title); [reflexivity | lia | | ];
      assumption. }
  split; [exact Hm|].
  unfold GenToc.parse_headings. cbn [fold_left]. rewrite Hm.
  rewrite (strip_clean title Hte Hh Hl). reflexivity.
Qed.

Lemma heading_recognised_witness :
  GenToc.parse_headings [line "###  Security Architecture "]
  = [(3, lit "Security Architecture")].
Proof.
  apply (heading_recognised 3 (lit "  ") (lit "Security Architecture")
           (space :: [newline])); try reflexivity.
  - split; repeat constructor.
  - discriminate.
  - discriminate.
Defined.

Lemma dropwhile_idem (f : ascii -> bool) (s : str) :
  dropwhile f (dropwhile f s) = dropwhile f s.
Proof.
  induction s as [|c s IH]; [reflexivity|].
  cbn [dropwhile]. destruct (f c) eqn:E; [exact IH|].
  cbn [dropwhile]. rewrite E. reflexivity.
Qed.

Lemma rstrip_idem (s : str) : rstrip (rstrip s) = rstrip s.
Proof.
  rewrite !rstrip_rev, rev_involutive, dropwhile_idem. reflexivity.
Qed.

Lemma rstrip_cons (c : ascii) (t : str) :
  is_space c = false -> rstrip (c :: t) = c :: rstrip t.
Proof.
  intros Hc. cbn [rstrip]. destruct (rstrip t); [rewrite Hc|]; reflexivity.
Qed.

Lemma strip_idem (s : str) : strip (strip s) = strip s.
Proof.
  unfold strip, lstrip.
  destruct (dropwhile is_space s) as [|c r] eqn:E; [reflexivity|].
  pose proof (dropwhile_head _ _ _ _ E) as Hc.
  rewrite (rstrip_cons c r Hc). cbn [dropwhile]. rewrite Hc.
  rewrite <- (rstrip_cons c r Hc). apply rstrip_idem.
Qed.

(** X9 — every heading that [parse_headings] extracts has a level from 1
    to 6 and a title without newline and without white space at either
    end. *)
Theorem parsed_heading_invariant (lines : list str) (level : nat)
    (title : str) :
  In (level, title) (GenToc.parse_headings lines) ->
  1 <= level <= 6 /\ no_newline title = true /\ strip title = title.
Proof.
  rewrite parse_headings_lines, in_flat_map.
  intros (l & _ & Hin). unfold line_headings in Hin.
  destruct (GenToc.HEADING_PATTERN_match l) as [[lv raw]|] eqn:E;
    [|destruct Hin].
  destruct Hin as [Heq|[]]. injection Heq as <- <-.
  destruct (heading_pattern_split _ _ _ E) as (Hlv & ws & post & _ & _ & _ & _ & _ & Hn).
  split; [exact Hlv|]. split.
  - apply strip_forallb, Hn.
  - apply strip_idem.
Qed.

Lemma parsed_heading_invariant_witness :
  1 <= 2 <= 6 /\ no_newline (lit "Setup") = true
  /\ strip (lit "Setup") = lit "Setup".
Proof.
  apply (parsed_heading_invariant setup_doc 2 (lit "Setup")).
  right. left. reflexivity.
Defined.

(** X10 — an input file that does not exist changes nothing: as long as
    another file is named, [main] ends as it does without the missing
    one. *)
Theorem missing_file_skipped (fs : filesystem) (before after : list str)
    (missing : str) :
  fs missing = Absent ->
  before ++ after <> [] ->
  GenToc.main fs (before ++ missing :: after) = GenToc.main fs (before ++ after).
Proof.
  intros Hm Hne. unfold GenToc.main.
  destruct (before ++ missing :: after) as [|x xs] eqn:E1;
    [destruct before; discriminate|].
  destruct (before ++ after) as [|y ys] eqn:E2; [congruence|].
  rewrite <- E1, <- E2, !main_files_lines, !existsb_app, !flat_map_app.
  cbn [existsb flat_map]. rewrite Hm. reflexivity.
Qed.

Lemma missing_file_skipped_witness :
  GenToc.main docs_fs
    [lit "docs/02-security.md"; lit "docs/none.md"; lit "docs/faq.md"]
  = GenToc.main docs_fs [lit "docs/02-security.md"; lit "docs/faq.md"].
Proof.
  apply (missing_file_skipped docs_fs [lit "docs/02-security.md"]
           [lit "docs/faq.md"] (lit "docs/none.md")).
  - reflexivity.
  - discriminate.
Defined.

(** ** More on [slugify] *)

Lemma lower_space (c : ascii) : is_space (lower_char c) = is_space c.
Proof. each_char c. Qed.

Lemma dropwhile_lower (s : str) :
  dropwhile is_space (lower s) = lower (dropwhile is_space s).
Proof.
  induction s as [|c s IH]; [reflexivity|].
  cbn [lower map dropwhile]. rewrite lower_space.
  destruct (is_space c); [exact IH | reflexivity].
Qed.

Lemma rstrip_lower (s : str) : rstrip (lower s) = lower (rstrip s).
Proof.
  induction s as [|c s IH]; [reflexivity|].
  cbn [lower map rstrip]. fold (lower s). rewrite IH.
  destruct (rstrip s); cbn [lower map].
  - rewrite lower_space. destruct (is_space c); reflexivity.
  - reflexivity.
Qed.

Lemma strip_lower (s : str) : strip (lower s) = lower (strip s).
Proof.
  unfold strip, lstrip. rewrite dropwhile_lower. apply rstrip_lower.
Qed.

Lemma lower_idem_char (c : ascii) : lower_char (lower_char c) = lower_char c.
Proof. each_char c. Qed.

(** X11 — [slugify] does not look at case: two titles that are the same
    once lowercased have the same slug. *)
Theorem slugify_ignores_case (a b : str) :
  lower a = lower b -> GenToc.slugify a = GenToc.slugify b.
Proof.
  intros H. unfold GenToc.slugify.
  rewrite <- !strip_lower, H. reflexivity.
Qed.

Lemma slugify_ignores_case_witness :
  GenToc.slugify (lit "Getting STARTED") = GenToc.slugify (lit "getting Started").
Proof.
  apply (slugify_ignores_case (lit "Getting STARTED") (lit "getting Started")).
  reflexivity.
Defined.

Lemma lstrip_spaces (ws s : str) :
  forallb is_space ws = true -> lstrip (ws ++ s) = lstrip s.
Proof.
  unfold lstrip. induction ws as [|c ws IH]; intros H; [reflexivity|].
  cbn [forallb] in H. apply andb_prop in H. destruct H as [Hc Hw].
  cbn [app dropwhile]. rewrite Hc. apply IH, Hw.
Qed.

Lemma dropwhile_all (f : ascii -> bool) (ws s : str) :
  forallb f ws = true -> dropwhile f (ws ++ s) = dropwhile f s.
Proof.
  induction ws as [|c ws IH]; intros H; [reflexivity|].
  cbn [forallb] in H. apply andb_prop in H. destruct H as [Hc Hw].
  cbn [app dropwhile]. rewrite Hc. apply IH, Hw.
Qed.

Lemma rstrip_spaces (s ws : str) :
  forallb is_space ws = true -> rstrip (s ++ ws) = rstrip s.
Proof.
  intros H. rewrite !rstrip_rev, rev_app_distr.
  rewrite dropwhile_all; [reflexivity|].
  rewrite forallb_forall in *. intros x Hx. apply H, in_rev, Hx.
Qed.

Lemma dropwhile_app_keep (f : ascii -> bool) (s ws : str) :
  dropwhile f s <> [] -> dropwhile f (s ++ ws) = dropwhile f s ++ ws.
Proof.
  induction s as [|c s IH]; [intros H; exfalso; apply H; reflexivity|].
  cbn [app dropwhile]. destruct (f c); [exact IH | reflexivity].
Qed.

Lemma strip_spaces (before s after : str) :
  forallb is_space before = true -> forallb is_space after = true ->
  strip (before ++ s ++ after) = strip s.
Proof.
  intros Hb Ha. unfold strip. rewrite (lstrip_spaces _ _ Hb). unfold lstrip.
  destruct (dropwhile is_space s) as [|c r] eqn:E.
  - assert (Hs : forallb is_space s = true).
    { clear -E. induction s as [|x s IH]; [reflexivity|].
      cbn [dropwhile] in E. cbn [forallb].
      destruct (is_space x); [apply IH, E | discriminate]. }
    rewrite <- (app_nil_r (s ++ after)), dropwhile_all; [reflexivity|].
    rewrite forallb_app, Hs, Ha. reflexivity.
  - rewrite dropwhile_app_keep by (rewrite E; discriminate).
    rewrite E. apply rstrip_spaces, Ha.
Qed.

(** X12 — white space around a title does not change its slug. *)
Theorem slugify_ignores_outer_space (before title after : str) :
  forallb is_space before = true -> forallb is_space after = true ->
  GenToc.slugify (before ++ title ++ after) = GenToc.slugify title.
Proof.
  intros Hb Ha. unfold GenToc.slugify.
  rewrite (strip_spaces before title after Hb Ha). reflexivity.
Qed.

Lemma slugify_ignores_outer_space_witness :
  GenToc.slugify (lit "  " ++ lit "Multiple   Spaces" ++ lit "  ")
  = GenToc.slugify (lit "Multiple   Spaces").
Proof.
  apply (slugify_ignores_outer_space (lit "  ") (lit "Multiple   Spaces")
           (lit "  ")); reflexivity.
Defined.

Lemma dropwhile_length (f : ascii -> bool) (s : str) :
  length (dropwhile f s) <= length s.
Proof.
  induction s as [|c s IH]; [apply le_n|].
  cbn [dropwhile]. destruct (f c); cbn [length]; lia.
Qed.

Lemma rstrip_length (s : str) : length (rstrip s) <= length s.
Proof.
  rewrite rstrip_rev, length_rev, <- (length_rev s). apply dropwhile_length.
Qed.

Lemma runs_length (s : str) (b : bool) :
  length (re_sub_runs GenToc.space_or_hyphen [hyphen] b s) <= length s.
Proof.
  revert b. induction s as [|c s IH]; intros b; [apply le_n|].
  rewrite runs_cons. pose proof (IH true). pose proof (IH false).
  destruct (Spec.separator c); [destruct b|]; cbn [length]; lia.
Qed.

(** X13 — a slug is never longer than the title it comes from. *)
Theorem slugify_not_longer (title : str) :
  length (GenToc.slugify title) <= length title.
Proof.
  unfold GenToc.slugify. rewrite re_sub_class_filter.
  eapply Nat.le_trans; [apply runs_length|].
  eapply Nat.le_trans; [apply filter_length_le|].
  unfold lower. rewrite length_map. unfold strip, lstrip.
  eapply Nat.le_trans; [apply rstrip_length | apply dropwhile_length].
Qed.

(** ** More on [rewrite_links] *)

(** X14 — whatever [replace_link] returns for a match keeps the display
    text and the shape of a link: only the target can change, and then it
    becomes a fragment. *)
Theorem replace_link_keeps_text (fs : filesystem) (filename : str)
    (m : RewriteLinks.re_match) :
  exists target,
    RewriteLinks.replace_link fs filename m
    = lit "[" ++ RewriteLinks.text m ++ lit "](" ++ target ++ lit ")"
    /\ (target = RewriteLinks.url m \/ exists anchor, target = hash :: anchor).
Proof.
  unfold RewriteLinks.replace_link.
  destruct (_ || _ || _).
  - exists (RewriteLinks.url m). split; [reflexivity | left; reflexivity].
  - destruct (endswith (lit ".md") (RewriteLinks.url m)).
    + match goal with
      | |- context [match ?found with Some _ => _ | None => _ end] =>
          destruct found as [anchor|]
      end.
      * exists (hash :: anchor). split; [reflexivity | right; eauto].
      * eexists (hash :: _). split; [reflexivity | right; eauto].
    + exists (RewriteLinks.url m). split; [reflexivity | left; reflexivity].
Qed.

Lemma render_kept (fs : filesystem) (filename : str) (ps : list piece) :
  link_pieces_kept ps = true ->
  render_all (RewriteLinks.replace_link fs filename) ps
  = render_all RewriteLinks.group0 ps.
Proof.
  induction ps as [|p ps IH]; intros H; [reflexivity|].
  unfold link_pieces_kept in H. cbn [forallb] in H.
  apply andb_prop in H. destruct H as [Hp Hps].
  rewrite !render_all_cons, (IH Hps). f_equal.
  destruct p as [c|m]; [reflexivity|]. cbn [render].
  unfold kept_link in Hp. apply orb_prop in Hp. destruct Hp as [Hp|Hp].
  - apply replace_link_non_rewritable, Hp.
  - apply replace_link_other_suffix. apply negb_true_iff, Hp.
Qed.

(** X15 — a document in which every link either starts with [http], [#]
    or [mailto:] or does not end with [.md] comes out of [rewrite_links]
    unchanged, whatever the files are. *)
Theorem only_kept_links_identity (fs : filesystem) (content filename : str) :
  link_pieces_kept (pieces 0 content) = true ->
  RewriteLinks.rewrite_links fs content filename = content.
Proof.
  intros H. unfold RewriteLinks.rewrite_links.
  rewrite sub_pieces, (render_kept fs filename _ H).
  apply (pieces_original 0 content).
Qed.

Lemma only_kept_links_identity_witness :
  RewriteLinks.rewrite_links docs_fs
    (lit "[a](https://x.org/a.md), [b](#top), [c](doc.md#s), [d](img.png)")
    (lit "docs/a.md")
  = lit "[a](https://x.org/a.md), [b](#top), [c](doc.md#s), [d](img.png)".
Proof.
  apply (only_kept_links_identity docs_fs
           (lit "[a](https://x.org/a.md), [b](#top), [c](doc.md#s), [d](img.png)")
           (lit "docs/a.md")).
  reflexivity.
Defined.

Lemma sub_no_bracket (repl : RewriteLinks.re_match -> str) (content : str) :
  existsb is_lbracket content = false ->
  RewriteLinks.link_pattern_sub repl 0 content = content.
Proof.
  induction content as [|c t IH]; intros H; [reflexivity|].
  cbn [existsb] in H. apply orb_false_elim in H. destruct H as [Hc Ht].
  cbn [RewriteLinks.link_pattern_sub].
  unfold RewriteLinks.link_match. unfold is_lbracket in Hc. rewrite Hc.
  rewrite (IH Ht). reflexivity.
Qed.

(** X16 — a text without an opening bracket has no link and comes out of
    [rewrite_links] unchanged. *)
Theorem no_bracket_identity (fs : filesystem) (content filename : str) :
  existsb is_lbracket content = false ->
  RewriteLinks.rewrite_links fs content filename = content.
Proof. apply sub_no_bracket. Qed.

Lemma no_bracket_identity_witness :
  RewriteLinks.rewrite_links docs_fs (lit "No link here (see above).")
    (lit "docs/a.md")
  = lit "No link here (see above).".
Proof.
  apply (no_bracket_identity docs_fs (lit "No link here (see above).")
           (lit "docs/a.md")).
  reflexivity.
Defined.

Lemma first_h1_skips (before after : list str) (l : str) :
  forallb (fun x => negb (h1_line x)) before = true ->
  h1_line l = true ->
  RewriteLinks.first_h1_anchor (before ++ l :: after)
  = Some (RewriteLinks.header_anchor (strip (skipn 2 l))).
Proof.
  intros Hb Hl. induction before as [|x before IH].
  - cbn [app RewriteLinks.first_h1_anchor]. unfold h1_line in Hl.
    rewrite Hl. reflexivity.
  - cbn [forallb] in Hb. apply andb_prop in Hb. destruct Hb as [Hx Hb].
    apply negb_true_iff in Hx. unfold h1_line in Hx.
    cbn [app RewriteLinks.first_h1_anchor]. rewrite Hx. apply IH, Hb.
Qed.

Lemma first_h1_none (lines : list str) :
  forallb (fun x => negb (h1_line x)) lines = true ->
  RewriteLinks.first_h1_anchor lines = None.
Proof.
  induction lines as [|x lines IH]; intros H; [reflexivity|].
  cbn [forallb] in H. apply andb_prop in H. destruct H as [Hx Hb].
  apply negb_true_iff in Hx. unfold h1_line in Hx.
  cbn [RewriteLinks.first_h1_anchor]. rewrite Hx. apply IH, Hb.
Qed.

(** X17 — the anchor of a rewritten link comes from the first line of the
    target that starts with ["# "]: the lines before it are passed over
    and the lines after it, other H1 lines included, are not looked at. *)
Theorem first_h1_line_decides (fs : filesystem) (filename : str)
    (m : RewriteLinks.re_match) (before after : list str) (l : str) :
  non_rewritable (RewriteLinks.url m) = false ->
  endswith (lit ".md") (RewriteLinks.url m) = true ->
  fs (os_path_join (os_path_dirname filename) (RewriteLinks.url m))
  = Readable (before ++ l :: after) ->
  forallb (fun x => negb (h1_line x)) before = true ->
  h1_line l = true ->
  RewriteLinks.replace_link fs filename m
  = lit "[" ++ RewriteLinks.text m ++ lit "](#"
    ++ RewriteLinks.header_anchor (strip (skipn 2 l)) ++ lit ")".
Proof.
  intros Hn He Hfs Hb Hl. unfold RewriteLinks.replace_link.
  unfold non_rewritable in Hn.
  rewrite Hn, He, Hfs, (first_h1_skips before after l Hb Hl). reflexivity.
Qed.

Lemma first_h1_line_decides_witness :
  RewriteLinks.replace_link
    (fun p =>
       if eqb_str p (lit "docs/t.md")
       then Readable [line "Intro"; line "## Sub"; line "# First One";
                      line "# Second"]
       else Absent)
    (lit "docs/a.md") (link "go" "t.md")
  = lit "[go](#first-one)".
Proof.
  apply (first_h1_line_decides
           (fun p =>
              if eqb_str p (lit "docs/t.md")
              then Readable [line "Intro"; line "## Sub"; line "# First One";
                             line "# Second"]
              else Absent)
           (lit "docs/a.md") (link "go" "t.md")
           [line "Intro"; line "## Sub"] [line "# Second"]
           (line "# First One")); reflexivity.
Defined.

(** X18 — a target that exists but has no line starting with ["# "] (or
    cannot be read before one is met) gives the same rewritten link as a
    missing target: the anchor guessed from the file name. *)
Theorem no_h1_falls_back (fs : filesystem) (filename : str)
    (m : RewriteLinks.re_match) :
  non_rewritable (RewriteLinks.url m) = false ->
  endswith (lit ".md") (RewriteLinks.url m) = true ->
  forallb (fun x => negb (h1_line x))
    (node_lines
       (fs (os_path_join (os_path_dirname filename) (RewriteLinks.url m))))
  = true ->
  RewriteLinks.replace_link fs filename m
  = lit "[" ++ RewriteLinks.text m ++ lit "](#"
    ++ RewriteLinks.strip_number_prefix
         (fst (os_path_splitext (os_path_basename (RewriteLinks.url m))))
    ++ lit ")"
  /\ RewriteLinks.replace_link fs filename m
     = RewriteLinks.replace_link (fun _ => Absent) filename m.
Proof.
  intros Hn He Hl. unfold RewriteLinks.replace_link.
  unfold non_rewritable in Hn. rewrite Hn, He.
  destruct (fs _) as [|lines|lines]; cbn [node_lines] in Hl;
    try rewrite (first_h1_none lines Hl); split; reflexivity.
Qed.

Lemma no_h1_falls_back_witness :
  RewriteLinks.replace_link docs_fs (lit "docs/a.md")
    (link "Link" "03-deployment.md")
  = lit "[Link](#deployment)"
  /\ RewriteLinks.replace_link docs_fs (lit "docs/a.md")
       (link "Link" "03-deployment.md")
     = RewriteLinks.replace_link (fun _ => Absent) (lit "docs/a.md")
         (link "Link" "03-deployment.md").
Proof.
  apply (no_h1_falls_back docs_fs (lit "docs/a.md")
           (link "Link" "03-deployment.md")); reflexivity.
Defined.

Lemma takewhile_stop (g : ascii -> bool) (x : str) (c : ascii) (r : str) :
  forallb g x = true -> g c = false ->
  takewhile g (x ++ c :: r) = x /\ dropwhile g (x ++ c :: r) = c :: r.
Proof.
  intros Hx Hc. induction x as [|a x IH].
  - cbn [app takewhile dropwhile]. rewrite Hc. split; reflexivity.
  - cbn [forallb] in Hx. apply andb_prop in Hx. destruct Hx as [Ha Hx].
    destruct (IH Hx) as [IH1 IH2].
    cbn [app takewhile dropwhile]. rewrite Ha, IH1, IH2. split; reflexivity.
Qed.

Lemma takewhile_all (g : ascii -> bool) (x : str) :
  forallb g x = true -> takewhile g x = x /\ dropwhile g x = [].
Proof.
  intros Hx. induction x as [|a x IH]; [split; reflexivity|].
  cbn [forallb] in Hx. apply andb_prop in Hx. destruct Hx as [Ha Hx].
  destruct (IH Hx) as [IH1 IH2].
  cbn [takewhile dropwhile]. rewrite Ha, IH1, IH2. split; reflexivity.
Qed.

Lemma link_match_found (m : RewriteLinks.re_match) (rest : str) :
  RewriteLinks.text m <> [] ->
  forallb (not_in RewriteLinks.is_rbracket) (RewriteLinks.text m) = true ->
  RewriteLinks.url m <> [] ->
  forallb (not_in RewriteLinks.is_rparen) (RewriteLinks.url m) = true ->
  RewriteLinks.link_match (RewriteLinks.group0 m ++ rest) = Some m.
Proof.
  intros Ht Htc Hu Huc.
  destruct m as [text url]. cbn [RewriteLinks.text RewriteLinks.url] in *.
  unfold RewriteLinks.group0. cbn [RewriteLinks.text RewriteLinks.url].
  change (lit "[") with ["["%char]. change (lit "](") with ["]"%char; "("%char].
  change (lit ")") with [")"%char].
  rewrite <- !app_assoc. cbn [app]. unfold RewriteLinks.link_match.
  change (is_char 91 "["%char) with true. cbn iota.
  destruct (takewhile_stop (not_in RewriteLinks.is_rbracket) text "]"%char
              ("("%char :: url ++ ")"%char :: rest) Htc eq_refl) as [E1 E2].
  rewrite E1, E2.
  destruct text as [|t0 text1]; [congruence|].
  change (is_char 40 "("%char) with true. cbn iota.
  destruct (takewhile_stop (not_in RewriteLinks.is_rparen) url ")"%char rest
              Huc eq_refl) as [E3 E4].
  rewrite E3, E4.
  destruct url as [|u0 url1]; [congruence|]. reflexivity.
Qed.

(** X19 — a link [[text](url)] with a non-empty text without [']'] and a
    non-empty url without [')'] is matched whole wherever it starts, with
    these two groups; and whatever [link_pattern] matches is the link text
    itself, at the start. *)
Theorem link_recognised (m : RewriteLinks.re_match) (rest : str) :
  RewriteLinks.text m <> [] ->
  forallb (not_in RewriteLinks.is_rbracket) (RewriteLinks.text m) = true ->
  RewriteLinks.url m <> [] ->
  forallb (not_in RewriteLinks.is_rparen) (RewriteLinks.url m) = true ->
  RewriteLinks.link_match (RewriteLinks.group0 m ++ rest) = Some m
  /\ (forall s m1,
        RewriteLinks.link_match s = Some m1 ->
        exists rest1, s = RewriteLinks.group0 m1 ++ rest1).
Proof.
  intros Ht Htc Hu Huc. split; [|exact link_match_prefix].
  apply link_match_found; assumption.
Qed.

Lemma link_recognised_witness :
  RewriteLinks.link_match (lit "[Link](02-security.md) and more")
  = Some (link "Link" "02-security.md").
Proof.
  apply (link_recognised (link "Link" "02-security.md") (lit " and more"));
    try reflexivity; discriminate.
Defined.

(** *** The anchor guessed from a file name *)

Lemma after_last_suffix (f : ascii -> bool) (a b : str) :
  forallb (not_in f) b = true ->
  f (last a slash) = true -> a <> [] ->
  after_last f (a ++ b) = b /\ upto_last f (a ++ b) = a.
Proof.
  intros Hb Hl Hne. unfold after_last, upto_last.
  rewrite rev_app_distr.
  assert (Hrb : forallb (not_in f) (rev b) = true).
  { rewrite forallb_forall in *. intros x Hx. apply Hb, in_rev, Hx. }
  destruct (rev a) as [|z ra] eqn:Ea.
  - apply (f_equal (@rev ascii)) in Ea. rewrite rev_involutive in Ea.
    cbn in Ea. congruence.
  - assert (Hz : f z = true).
    { apply (f_equal (@rev ascii)) in Ea. rewrite rev_involutive in Ea.
      cbn [rev] in Ea. rewrite Ea, last_last in Hl. exact Hl. }
    assert (Hnz : not_in f z = false) by (unfold not_in; rewrite Hz; reflexivity).
    destruct (takewhile_stop (not_in f) (rev b) z ra Hrb Hnz) as [E1 E2].
    rewrite E1, E2, rev_involutive, <- Ea, rev_involutive. split; reflexivity.
Qed.

Lemma after_last_none (f : ascii -> bool) (b : str) :
  forallb (not_in f) b = true ->
  after_last f b = b /\ upto_last f b = [].
Proof.
  intros Hb. unfold after_last, upto_last.
  assert (Hrb : forallb (not_in f) (rev b) = true).
  { rewrite forallb_forall in *. intros x Hx. apply Hb, in_rev, Hx. }
  destruct (takewhile_all (not_in f) (rev b) Hrb) as [E1 E2].
  rewrite E1, E2, rev_involutive. split; reflexivity.
Qed.

Lemma digit_facts (c : ascii) :
  is_09 c = true -> is_dot c = false /\ is_slash c = false.
Proof. each_char c. Qed.

Lemma separator_facts (c : ascii) :
  is_hyphen c || is_char 95 c = true ->
  is_09 c = false /\ is_slash c = false.
Proof. each_char c. Qed.

(** X20 — for a target [dir/NN-name.md] (a directory part that is empty or
    ends with a slash, a run of digits, then [-] or [_], then a name
    without slash) the anchor guessed from the file name is [name]. *)
Theorem fallback_anchor_of_numbered_file (dir digits name : str) (sep : ascii) :
  last dir slash = slash ->
  digits <> [] -> forallb is_09 digits = true ->
  is_hyphen sep || is_char 95 sep = true ->
  forallb (not_in is_slash) name = true ->
  RewriteLinks.strip_number_prefix
    (fst (os_path_splitext
            (os_path_basename (dir ++ digits ++ sep :: name ++ lit ".md"))))
  = name.
Proof.
  intros Hdir Hne Hd Hsep Hname.
  set (stem := digits ++ sep :: name).
  assert (Hstem : forallb (not_in is_slash) stem = true).
  { unfold stem. rewrite forallb_app. cbn [forallb].
    destruct (separator_facts sep Hsep) as [_ Hs].
    unfold not_in at 2. rewrite Hs, Hname. cbn [negb andb].
    rewrite andb_true_r. apply forallb_forall. intros x Hx.
    rewrite forallb_forall in Hd. unfold not_in.
    destruct (digit_facts x (Hd x Hx)) as [_ E]. rewrite E. reflexivity. }
  assert (Hfile : forallb (not_in is_slash) (stem ++ lit ".md") = true).
  { rewrite forallb_app, Hstem. reflexivity. }
  assert (Hbase : os_path_basename (dir ++ digits ++ sep :: name ++ lit ".md")
                  = stem ++ lit ".md").
  { unfold os_path_basename.
    replace (dir ++ digits ++ sep :: name ++ lit ".md")
      with (dir ++ stem ++ lit ".md")
      by (unfold stem; rewrite <- !app_assoc; reflexivity).
    destruct dir as [|d0 dir']; [apply after_last_none, Hfile|].
    apply after_last_suffix; [exact Hfile | | discriminate].
    rewrite Hdir. reflexivity. }
  rewrite Hbase. unfold os_path_splitext.
  destruct (after_last_none is_slash (stem ++ lit ".md") Hfile) as [E1 E2].
  rewrite E1, E2.
  assert (Hdot : existsb is_dot (stem ++ lit ".md") = true).
  { rewrite existsb_app. apply orb_true_iff. right. reflexivity. }
  rewrite Hdot.
  assert (Hcut : stem ++ lit ".md" = (stem ++ [dot]) ++ lit "md").
  { rewrite <- app_assoc. reflexivity. }
  destruct (after_last_suffix is_dot (stem ++ [dot]) (lit "md") eq_refl) as [E3 E4].
  { rewrite last_last. reflexivity. }
  { destruct stem; discriminate. }
  rewrite Hcut, E4, removelast_last.
  assert (Hnd : existsb (not_in is_dot) stem = true).
  { unfold stem. destruct digits as [|d0 ds]; [congruence|].
    cbn [forallb] in Hd. apply andb_prop in Hd. destruct Hd as [Hd0 _].
    cbn [app existsb]. unfold not_in at 1.
    destruct (digit_facts d0 Hd0) as [E _]. rewrite E. reflexivity. }
  rewrite Hnd. cbn [fst app].
  unfold RewriteLinks.strip_number_prefix, stem.
  destruct (separator_facts sep Hsep) as [Hs9 _].
  destruct (takewhile_stop is_09 digits sep name Hd Hs9) as [E5 E6].
  rewrite E5, E6. destruct digits as [|d0 ds]; [congruence|].
  rewrite Hsep. reflexivity.
Qed.

Lemma fallback_anchor_of_numbered_file_witness :
  RewriteLinks.strip_number_prefix
    (fst (os_path_splitext
            (os_path_basename (lit "../guide/03-deployment.v2.md"))))
  = lit "deployment.v2".
Proof.
  apply (fallback_anchor_of_numbered_file (lit "../guide/") (lit "03")
           (lit "deployment.v2") hyphen); try reflexivity.
  discriminate.
Defined.

(** ** More on [check_links] *)

Lemma lazy_target_chars (s link rest : str) :
  CheckLinks.lazy_target s = Some (link, rest) ->
  forallb target_char link = true /\ s = link ++ ")"%char :: rest.
Proof.
  revert link. induction s as [|c t IH]; intros link; [discriminate|].
  cbn [CheckLinks.lazy_target]. destruct (is_char 41 c) eqn:Hp.
  - intros H. injection H as <- <-. apply is_char_eq in Hp. subst c.
    split; reflexivity.
  - destruct (is_char 10 c) eqn:Hn; [discriminate|].
    destruct (CheckLinks.lazy_target t) as [[l r]|]; [|discriminate].
    intros H. injection H as <- <-. destruct (IH l eq_refl) as [Hl ->].
    cbn [forallb app]. unfold target_char at 1. rewrite Hp, Hn, Hl.
    split; reflexivity.
Qed.

Lemma lazy_text_chars (s link rest : str) :
  CheckLinks.lazy_text s = Some (link, rest) ->
  forallb target_char link = true.
Proof.
  induction s as [|c t IH]; [discriminate|].
  cbn [CheckLinks.lazy_text].
  destruct (match t with
            | [] => None
            | lp :: r =>
                if is_char 93 c && is_char 40 lp
                then CheckLinks.lazy_target r else None
            end) as [[l r']|] eqn:E.
  - intros H. injection H as <- <-.
    destruct t as [|lp r]; [discriminate|].
    destruct (is_char 93 c && is_char 40 lp); [|discriminate].
    apply (lazy_target_chars _ _ _ E).
  - destruct (is_char 10 c); [discriminate | exact IH].
Qed.

Lemma findall_chars (content : str) (skip : nat) (link : str) :
  In link (CheckLinks.findall skip content) ->
  forallb target_char link = true.
Proof.
  revert skip. induction content as [|c t IH]; intros skip; [intros []|].
  cbn [CheckLinks.findall]. destruct skip as [|k]; [|apply IH].
  destruct (CheckLinks.link_match (c :: t)) as [[l rest]|] eqn:E; [|apply IH].
  intros [<-|Hin]; [|exact (IH _ Hin)].
  unfold CheckLinks.link_match in E.
  destruct (is_char 91 c); [|discriminate].
  apply (lazy_text_chars _ _ _ E).
Qed.

(** X21 — a target that [check_links] reports never holds a closing
    parenthesis or a newline: the pattern ends a link at the first [')'] of
    its line. *)
Theorem reported_target_chars (exists_ : str -> bool)
    (walk : list CheckLinks.walk_entry) (start_path source link : str) :
  In (source, link) (CheckLinks.check_links exists_ walk start_path) ->
  forallb target_char link = true.
Proof.
  intros H. apply in_report in H.
  destruct H as (dirpath & files & file & content & _ & _ & _ & Hl & _).
  apply (findall_chars _ _ _ Hl).
Qed.

Lemma reported_target_chars_witness :
  forallb target_char (lit "bad.md#s") = true.
Proof.
  apply (reported_target_chars docs_exists docs_walk (lit ".")
           (lit "docs/a.md") (lit "bad.md#s")).
  left. reflexivity.
Defined.

(** X22 — for the same scanned documents (the same walk and the same text
    of its files), a report made with an existence test that holds of more
    paths has no entry that the other report lacks. *)
Theorem report_shrinks_with_files (exists_ exists_' : str -> bool)
    (walk : list CheckLinks.walk_entry) (start_path source link : str) :
  (forall p, exists_ p = true -> exists_' p = true) ->
  In (source, link) (CheckLinks.check_links exists_' walk start_path) ->
  In (source, link) (CheckLinks.check_links exists_ walk start_path).
Proof.
  intros Hsub H. apply in_report in H. apply in_report.
  destruct H as (dirpath & files & file & content
                 & Hw & Hf & Hs & Hl & Hr & He).
  exists dirpath, files, file, content.
  repeat split; try assumption.
  destruct (exists_ _) eqn:E; [|reflexivity].
  apply Hsub in E. congruence.
Qed.

Lemma report_shrinks_with_files_witness :
  In (lit "docs/a.md", lit "bad.md#s")
     (CheckLinks.check_links (fun _ => false) docs_walk (lit ".")).
Proof.
  apply (report_shrinks_with_files (fun _ => false) docs_exists docs_walk
           (lit ".") (lit "docs/a.md") (lit "bad.md#s")).
  - discriminate.
  - left. reflexivity.
Defined.

(** X23 — directories are checked one after the other and independently:
    the report of a walk is the report of its first part followed by the
    report of the rest. *)
Theorem report_of_appended_walks (exists_ : str -> bool)
    (walk1 walk2 : list CheckLinks.walk_entry) (start_path : str) :
  CheckLinks.check_links exists_ (walk1 ++ walk2) start_path
  = CheckLinks.check_links exists_ walk1 start_path
    ++ CheckLinks.check_links exists_ walk2 start_path.
Proof.
  unfold CheckLinks.check_links. rewrite !check_links_from.
  cbn [app]. apply flat_map_app.
Qed.

(** X24 — every entry of the report names as its source a listed file
    that was decoded, whose name ends with [.md] and is none of the three
    ignored names, joined to its directory; the reported target was found
    in that file. *)
Theorem report_sources (exists_ : str -> bool)
    (walk : list CheckLinks.walk_entry) (start_path source link : str) :
  In (source, link) (CheckLinks.check_links exists_ walk start_path) ->
  exists dirpath files filename content,
    In (dirpath, files) walk
    /\ In (filename, CheckLinks.Decoded content) files
    /\ source = os_path_join dirpath filename
    /\ endswith (lit ".md") filename = true
    /\ mem_str filename
         [lit "MCP-IEEE-42010-AD.md"; lit "CHANGELOG.md"; lit "CONTRIBUTING.md"]
       = false
    /\ In link (CheckLinks.findall 0 content).
Proof.
  intros H. apply in_report in H.
  destruct H as (dirpath & files & [filename read] & content
                 & Hw & Hf & Hs & Hl & _).
  unfold scanned in Hs. destruct read as [content'|]; [|destruct Hs].
  destruct (endswith (lit ".md") filename) eqn:Emd; [|destruct Hs].
  destruct (mem_str filename CheckLinks.ignored_files) eqn:Eig; [destruct Hs|].
  cbn [negb andb] in Hs. destruct Hs as [Heq|[]]. injection Heq as <- <-.
  exists dirpath, files, filename, content'. auto 10.
Qed.

Lemma report_sources_witness :
  exists dirpath files filename content,
    In (dirpath, files) docs_walk
    /\ In (filename, CheckLinks.Decoded content) files
    /\ lit "docs/a.md" = os_path_join dirpath filename
    /\ endswith (lit ".md") filename = true
    /\ mem_str filename
         [lit "MCP-IEEE-42010-AD.md"; lit "CHANGELOG.md"; lit "CONTRIBUTING.md"]
       = false
    /\ In (lit "bad.md#s") (CheckLinks.findall 0 content).
Proof.
  apply (report_sources docs_exists docs_walk (lit ".") (lit "docs/a.md")
           (lit "bad.md#s")).
  left. reflexivity.
Defined.

(** ** Links in their context *)

Lemma sub_skip (repl : RewriteLinks.re_match -> str) (content : str)
    (skip : nat) :
  RewriteLinks.link_pattern_sub repl skip content
  = RewriteLinks.link_pattern_sub repl 0 (skipn skip content).
Proof.
  revert skip. induction content as [|c t IH]; intros skip.
  - destruct skip; reflexivity.
  - destruct skip as [|k]; [reflexivity|].
    cbn [RewriteLinks.link_pattern_sub skipn]. apply IH.
Qed.

Lemma sub_after_plain (repl : RewriteLinks.re_match -> str) (pre s : str) :
  existsb is_lbracket pre = false ->
  RewriteLinks.link_pattern_sub repl 0 (pre ++ s)
  = pre ++ RewriteLinks.link_pattern_sub repl 0 s.
Proof.
  induction pre as [|c t IH]; intros H; [reflexivity|].
  cbn [existsb] in H. apply orb_false_elim in H. destruct H as [Hc Ht].
  cbn [app RewriteLinks.link_pattern_sub].
  unfold RewriteLinks.link_match. unfold is_lbracket in Hc. rewrite Hc.
  rewrite (IH Ht). reflexivity.
Qed.

(** X25 — a well-formed link is rewritten where it stands: after a text
    without opening bracket, the link is replaced by what [replace_link]
    gives for it and the rewriting goes on with what follows the link. *)
Theorem rewrite_link_in_context (fs : filesystem) (filename pre rest : str)
    (m : RewriteLinks.re_match) :
  existsb is_lbracket pre = false ->
  RewriteLinks.text m <> [] ->
  forallb (not_in RewriteLinks.is_rbracket) (RewriteLinks.text m) = true ->
  RewriteLinks.url m <> [] ->
  forallb (not_in RewriteLinks.is_rparen) (RewriteLinks.url m) = true ->
  RewriteLinks.rewrite_links fs (pre ++ RewriteLinks.group0 m ++ rest) filename
  = pre ++ RewriteLinks.replace_link fs filename m
    ++ RewriteLinks.rewrite_links fs rest filename.
Proof.
  intros Hpre Ht Htc Hu Huc. unfold RewriteLinks.rewrite_links.
  rewrite (sub_after_plain _ _ _ Hpre). f_equal.
  pose proof (link_match_found m rest Ht Htc Hu Huc) as Hm.
  destruct (RewriteLinks.group0 m) as [|g0 g] eqn:Eg; [discriminate|].
  cbn [app] in Hm |- *. cbn [RewriteLinks.link_pattern_sub]. rewrite Hm.
  f_equal. rewrite sub_skip, Eg.
  replace (length (g0 :: g) - 1) with (length g) by (cbn [length]; lia).
  rewrite skipn_app, skipn_all, Nat.sub_diag. reflexivity.
Qed.

Lemma rewrite_link_in_context_witness :
  RewriteLinks.rewrite_links docs_fs
    (lit "See " ++ RewriteLinks.group0 (link "Link" "02-security.md")
     ++ lit " and [FAQ](faq.md).")
    (lit "docs/a.md")
  = lit "See [Link](#security-architecture) and [FAQ](#q--a).".
Proof.
  rewrite (rewrite_link_in_context docs_fs (lit "docs/a.md") (lit "See ")
             (lit " and [FAQ](faq.md).") (link "Link" "02-security.md"));
    try reflexivity; discriminate.
Defined.

Lemma findall_skip (content : str) (skip : nat) :
  CheckLinks.findall skip content = CheckLinks.findall 0 (skipn skip content).
Proof.
  revert skip. induction content as [|c t IH]; intros skip.
  - destruct skip; reflexivity.
  - destruct skip as [|k]; [reflexivity|].
    cbn [CheckLinks.findall skipn]. apply IH.
Qed.

Lemma findall_after_plain (pre s : str) :
  existsb is_lbracket pre = false ->
  CheckLinks.findall 0 (pre ++ s) = CheckLinks.findall 0 s.
Proof.
  induction pre as [|c t IH]; intros H; [reflexivity|].
  cbn [existsb] in H. apply orb_false_elim in H. destruct H as [Hc Ht].
  cbn [app CheckLinks.findall].
  unfold CheckLinks.link_match. unfold is_lbracket in Hc. rewrite Hc.
  apply IH, Ht.
Qed.

Lemma lazy_target_found (u rest : str) :
  forallb target_char u = true ->
  CheckLinks.lazy_target (u ++ ")"%char :: rest) = Some (u, rest).
Proof.
  induction u as [|c u IH]; intros H; [reflexivity|].
  cbn [forallb] in H. apply andb_prop in H. destruct H as [Hc Hu].
  unfold target_char in Hc. apply andb_prop in Hc. destruct Hc as [Hp Hn].
  apply negb_true_iff in Hp. apply negb_true_iff in Hn.
  cbn [app CheckLinks.lazy_target]. rewrite Hp, Hn, (IH Hu). reflexivity.
Qed.

Lemma lazy_text_found (t u rest : str) :
  forallb text_char t = true -> forallb target_char u = true ->
  CheckLinks.lazy_text (t ++ "]"%char :: "("%char :: u ++ ")"%char :: rest)
  = Some (u, rest).
Proof.
  intros Ht Hu. induction t as [|c t IH].
  - cbn [app CheckLinks.lazy_text].
    change (is_char 93 "]"%char && is_char 40 "("%char) with true. cbn iota.
    rewrite (lazy_target_found u rest Hu). reflexivity.
  - cbn [forallb] in Ht. apply andb_prop in Ht. destruct Ht as [Hc Ht].
    unfold text_char in Hc. apply andb_prop in Hc. destruct Hc as [Hb Hn].
    apply negb_true_iff in Hb. apply negb_true_iff in Hn.
    cbn [app CheckLinks.lazy_text]. rewrite Hb, Hn. cbn [andb].
    rewrite (IH Ht).
    destruct (t ++ "]"%char :: "("%char :: u ++ ")"%char :: rest);
      reflexivity.
Qed.

(** X26 — [check_links] finds a link where it stands: after a text without
    opening bracket, [[text](target)] with no [']'] or newline in the text
    and no [')'] or newline in the target yields that target, and the
    search goes on after the link. *)
Theorem findall_link_in_context (pre t u rest : str) :
  existsb is_lbracket pre = false ->
  forallb text_char t = true -> forallb target_char u = true ->
  CheckLinks.findall 0
    (pre ++ lit "[" ++ t ++ lit "](" ++ u ++ lit ")" ++ rest)
  = u :: CheckLinks.findall 0 rest.
Proof.
  intros Hpre Ht Hu. rewrite (findall_after_plain _ _ Hpre).
  change (lit "[") with ["["%char]. change (lit "](") with ["]"%char; "("%char].
  change (lit ")") with [")"%char]. cbn [app CheckLinks.findall].
  unfold CheckLinks.link_match. change (is_char 91 "["%char) with true.
  cbn iota. rewrite (lazy_text_found t u rest Ht Hu). f_equal.
  rewrite findall_skip. f_equal.
  replace (t ++ "]"%char :: "("%char :: u ++ ")"%char :: rest)
    with ((t ++ "]"%char :: "("%char :: u ++ [")"%char]) ++ rest)
    by (rewrite <- !app_assoc; cbn [app]; rewrite <- app_assoc; reflexivity).
  rewrite length_app, Nat.add_sub, skipn_app, skipn_all, Nat.sub_diag.
  reflexivity.
Qed.

Lemma findall_link_in_context_witness :
  CheckLinks.findall 0 (lit "See [the guide](guide/intro.md#top), then stop.")
  = [lit "guide/intro.md#top"].
Proof.
  apply (findall_link_in_context (lit "See ") (lit "the guide")
           (lit "guide/intro.md#top") (lit ", then stop.")); reflexivity.
Defined.

(** ** An H1 anywhere in the target, and a link inside a link *)

(** C2, as the code has it — when the first line of the target that starts
    with ["# "], wherever it stands in the file, carries a title of
    printable ASCII characters without underscore, and the anchor that
    [replace_link] computes from it has no two hyphens in a row, the
    rewritten link targets [slugify] of that title.  Outside these
    conditions the two computations differ. *)
Theorem rewritten_anchor_is_slug (fs : filesystem) (filename : str)
    (m : RewriteLinks.re_match) (before rest : list str) (t eol : str) :
  non_rewritable (RewriteLinks.url m) = false ->
  endswith (lit ".md") (RewriteLinks.url m) = true ->
  node_lines
    (fs (os_path_join (os_path_dirname filename) (RewriteLinks.url m)))
  = before ++ (lit "# " ++ t ++ eol) :: rest ->
  forallb (fun x => negb (h1_line x)) before = true ->
  forallb is_space eol = true ->
  forallb plain_char t = true ->
  no_double_hyphen (RewriteLinks.header_anchor (strip t)) = true ->
  RewriteLinks.replace_link fs filename m
  = lit "[" ++ RewriteLinks.text m ++ lit "](#" ++ GenToc.slugify t ++ lit ")".
Proof.
  intros Hn He Hfs Hb Heol Hp Hd.
  assert (Hfound :
            RewriteLinks.first_h1_anchor
              (before ++ (lit "# " ++ t ++ eol) :: rest)
            = Some (GenToc.slugify t)).
  { eapply eq_trans;
      [exact (first_h1_skips before rest (lit "# " ++ t ++ eol) Hb eq_refl)|].
    change (skipn 2 (lit "# " ++ t ++ eol)) with (t ++ eol).
    pose proof (strip_spaces [] t eol eq_refl Heol) as Es.
    cbn [app] in Es. rewrite Es.
    rewrite (header_anchor_slugify t Hp Hd). reflexivity. }
  unfold RewriteLinks.replace_link. unfold non_rewritable in Hn.
  rewrite Hn, He.
  destruct (fs (os_path_join (os_path_dirname filename) (RewriteLinks.url m)))
    as [|lines|lines]; cbn [node_lines] in Hfs.
  - destruct before; discriminate.
  - rewrite Hfs, Hfound. reflexivity.
  - rewrite Hfs, Hfound. reflexivity.
Qed.

Lemma rewritten_anchor_is_slug_witness :
  RewriteLinks.replace_link
    (fun p =>
       if eqb_str p (lit "docs/02-security.md")
       then Readable [line "<!-- generated -->"; [newline];
                      line "# Security Architecture"; line "# Other"]
       else Absent)
    (lit "docs/a.md") (link "Link" "02-security.md")
  = lit "[Link](#security-architecture)"
  /\ GenToc.slugify (lit "Security Architecture") = lit "security-architecture".
Proof.
  split; [|reflexivity].
  apply (rewritten_anchor_is_slug
           (fun p =>
              if eqb_str p (lit "docs/02-security.md")
              then Readable [line "<!-- generated -->"; [newline];
                             line "# Security Architecture"; line "# Other"]
              else Absent)
           (lit "docs/a.md") (link "Link" "02-security.md")
           [line "<!-- generated -->"; [newline]] [line "# Other"]
           (lit "Security Architecture") [newline]); reflexivity.
Defined.

Lemma startswith_self (sub post : str) : startswith sub (sub ++ post) = true.
Proof.
  induction sub as [|c sub IH]; [reflexivity|].
  cbn [app startswith]. rewrite Ascii.eqb_refl. exact IH.
Qed.

Lemma is_infix_complete (sub pre post : str) :
  is_infix sub (pre ++ sub ++ post) = true.
Proof.
  induction pre as [|c pre IH].
  - cbn [app]. destruct (sub ++ post) as [|x r] eqn:E.
    + destruct sub; [reflexivity | discriminate].
    + cbn [is_infix]. rewrite <- E, startswith_self. reflexivity.
  - cbn [app is_infix]. rewrite IH. apply orb_true_r.
Qed.

(** C8 fails on the code: a link to an external page that follows an
    unfinished link is taken into the target of that one, which runs to
    the first [')'], and is rewritten away with it. *)
Lemma external_link_swallowed :
  let m := link "readme" "https://github.com/x/README.md" in
  let pre := lit "see [docs](intro" ++ newline :: lit "and " in
  let output :=
    RewriteLinks.rewrite_links docs_fs swallowed_doc (lit "docs/a.md") in
  swallowed_doc = pre ++ RewriteLinks.group0 m ++ lit " end"
  /\ RewriteLinks.link_match (RewriteLinks.group0 m ++ lit " end") = Some m
  /\ non_rewritable (RewriteLinks.url m) = true
  /\ CheckLinks.findall 0 swallowed_doc = [RewriteLinks.url m]
  /\ output = lit "see [docs](#README) end"
  /\ ~ exists before after, output = before ++ RewriteLinks.group0 m ++ after.
Proof.
  cbv zeta. split; [reflexivity|]. split; [reflexivity|].
  split; [reflexivity|]. split; [reflexivity|]. split; [reflexivity|].
  intros (before & after & H).
  pose proof (is_infix_complete
                (RewriteLinks.group0 (link "readme" "https://github.com/x/README.md"))
                before after) as Hin.
  rewrite <- H in Hin. vm_compute in Hin. discriminate.
Qed.
